(** * Student Records: the SQLite gateway of [app.py] and its Streamlit page

    A shallow embedding of [src/app.py].  The database file is a value of
    type [Store]; every gateway function ([init_db], [insert_entry],
    [view_all], [get_entry], [update_entry], [delete_entry]) is a
    computation in a small state-and-exception monad over [Store]; each SQL
    statement the code sends is a constructor of [statement], executed by
    [execute], which returns the cursor the Python code then reads
    ([lastrowid], [rowcount], [fetchone], [fetchall]).  The page function
    [main] is embedded section by section on top of the gateway. *)

From Stdlib Require Import ZArith List String Ascii Bool Lia Permutation Sorted.
Import ListNotations.
Local Open Scope string_scope.
Local Open Scope list_scope.
Local Open Scope Z_scope.

(** ** Exceptions and results *)

(** The exceptions the calls of [app.py] can raise: those of Python's
    [sqlite3] module with their messages, and Streamlit's for a widget built
    with bad arguments, whose message is not kept. *)
Inductive exn : Type :=
| OperationalError (msg : string)
| OverflowError (msg : string)
| StreamlitAPIException.

Inductive result (A : Type) : Type :=
| Ok (a : A)
| Raise (e : exn).
Arguments Ok {A} a.
Arguments Raise {A} e.

(** The messages of the errors the statements of [app.py] can meet. *)
Definition unable_to_open : exn := OperationalError "unable to open database file".
Definition no_such_table : exn := OperationalError "no such table: entries".
Definition database_full : exn := OperationalError "database or disk is full".
Definition int_too_large : exn :=
  OverflowError "Python int too large to convert to SQLite INTEGER".

(** ** The table [entries]

    [CREATE TABLE entries (id INTEGER PRIMARY KEY AUTOINCREMENT,
    name TEXT NOT NULL, email TEXT NOT NULL, age INTEGER, notes TEXT)]:
    the two [NOT NULL] columns are plain strings, the two nullable columns
    are options ([None] is SQL [NULL]). *)
Record Row : Type := mkRow {
  id : Z;
  name : string;
  email : string;
  age : option Z;
  notes : option string
}.

(** A table is its rows, in insertion order, together with the counter
    SQLite keeps for an [AUTOINCREMENT] key (the [seq] column of
    [sqlite_sequence]): the largest key ever generated for the table. *)
Record Table : Type := mkTable {
  rows : list Row;
  seq : Z
}.

(** The database file [data.db]: it cannot be opened, or it can be opened
    and holds no table [entries] yet (a new file included), or it holds the
    table. *)
Inductive Store : Type :=
| Unopenable
| NoTable
| Entries (t : Table).

(** SQLite's INTEGER is a signed 64-bit integer. *)
Definition MAX_ROWID : Z := 9223372036854775807.
Definition MIN_INT64 : Z := -9223372036854775808.

Definition fits_int64 (z : Z) : bool := (MIN_INT64 <=? z) && (z <=? MAX_ROWID).

(** ** The monad: a store threaded through, and exceptions.

    A raised exception leaves the store as it was: every statement runs
    in [with get_connection() as conn], which rolls back on an exception
    and commits otherwise. *)
Definition M (A : Type) : Type := Store -> result A * Store.

Definition ret {A : Type} (a : A) : M A := fun s => (Ok a, s).

Definition bind {A B : Type} (m : M A) (k : A -> M B) : M B :=
  fun s => match m s with
           | (Ok a, s') => k a s'
           | (Raise e, s') => (Raise e, s')
           end.

Definition raise {A : Type} (e : exn) : M A := fun s => (Raise e, s).

Declare Scope py_scope.
Delimit Scope py_scope with py.
Notation "x <- m ;; k" := (bind m (fun x => k))
  (at level 61, m at next level, right associativity) : py_scope.
Notation "m ;; k" := (bind m (fun _ => k))
  (at level 61, right associativity) : py_scope.
Local Open Scope py_scope.

(** ** Statements and cursors *)

(** The six SQL statements of [app.py], with the parameters bound to
    their [?] placeholders. *)
Inductive statement : Type :=
| CreateTableIfNotExists
| InsertInto (name email : string) (age : option Z) (notes : string)
| SelectAllOrderByIdDesc
| SelectWhereId (row_id : Z)
| UpdateWhereId (name email : string) (age : option Z) (notes : string) (row_id : Z)
| DeleteWhereId (row_id : Z).

(** What the code reads from the cursor [conn.execute] returns. *)
Record Cursor : Type := mkCursor {
  lastrowid : Z;
  rowcount : Z;
  fetchall : list Row
}.

Definition fetchone (cur : Cursor) : option Row := hd_error (fetchall cur).

(** *** Parameter binding

    A Python [int] bound to a placeholder must fit SQLite's INTEGER;
    [None] binds as [NULL]. *)
Definition int_params (st : statement) : list Z :=
  match st with
  | CreateTableIfNotExists | SelectAllOrderByIdDesc => []
  | InsertInto _ _ a _ => match a with Some z => [z] | None => [] end
  | SelectWhereId i | DeleteWhereId i => [i]
  | UpdateWhereId _ _ a _ i => match a with Some z => [z; i] | None => [i] end
  end.

Definition bindable (st : statement) : bool := forallb fits_int64 (int_params st).

(** *** [AUTOINCREMENT]

    The key of a new row is one more than the largest key in the table
    and never less than one more than the largest key ever generated; once
    either has reached the largest integer the insert fails. *)
Definition max_rowid (rs : list Row) : option Z :=
  match rs with
  | [] => None
  | r :: rs' => Some (fold_left Z.max (map id rs') (id r))
  end.

Definition new_rowid (t : Table) : option Z :=
  let v := match max_rowid (rows t) with
           | None => Some 1
           | Some m => if MAX_ROWID <=? m then None else Some (m + 1)
           end in
  match v with
  | None => None
  | Some v => if MAX_ROWID <=? seq t then None else Some (Z.max v (seq t + 1))
  end.

(** The row [INSERT INTO entries (name, email, age, notes)] writes under
    the key [i]. *)
Definition new_row (i : Z) (name email : string) (age : option Z) (notes : string) : Row :=
  mkRow i name email age (Some notes).

(** *** [WHERE id = ?] *)
Definition has_id (row_id : Z) (r : Row) : bool := id r =? row_id.

Definition set_fields (name email : string) (age : option Z) (notes : string)
    (r : Row) : Row :=
  mkRow (id r) name email age (Some notes).

(** [UPDATE ... SET ... WHERE id = ?] and [DELETE ... WHERE id = ?] on the
    rows. *)
Definition updated_rows (row_id : Z) (name email : string) (age : option Z)
    (notes : string) (rs : list Row) : list Row :=
  map (fun r => if has_id row_id r then set_fields name email age notes r else r) rs.

Definition remaining_rows (row_id : Z) (rs : list Row) : list Row :=
  filter (fun r => negb (has_id row_id r)) rs.

(** *** [ORDER BY id DESC] *)
Fixpoint insert_desc (r : Row) (rs : list Row) : list Row :=
  match rs with
  | [] => [r]
  | r' :: rs' => if id r' <=? id r then r :: rs else r' :: insert_desc r rs'
  end.

Definition order_by_id_desc (rs : list Row) : list Row :=
  fold_right insert_desc [] rs.

(** *** Running a statement on the table *)
Definition count (f : Row -> bool) (rs : list Row) : Z :=
  Z.of_nat (List.length (filter f rs)).

Definition run_statement (st : statement) (t : Table) : result (Cursor * Table) :=
  match st with
  | CreateTableIfNotExists => Ok (mkCursor 0 (-1) [], t)
  | InsertInto name email age notes =>
      match new_rowid t with
      | None => Raise database_full
      | Some i =>
          Ok (mkCursor i 1 [],
              mkTable (rows t ++ [new_row i name email age notes]) i)
      end
  | SelectAllOrderByIdDesc =>
      Ok (mkCursor 0 (-1) (order_by_id_desc (rows t)), t)
  | SelectWhereId row_id =>
      Ok (mkCursor 0 (-1) (filter (has_id row_id) (rows t)), t)
  | UpdateWhereId name email age notes row_id =>
      Ok (mkCursor 0 (count (has_id row_id) (rows t)) [],
          mkTable (updated_rows row_id name email age notes (rows t)) (seq t))
  | DeleteWhereId row_id =>
      Ok (mkCursor 0 (count (has_id row_id) (rows t)) [],
          mkTable (remaining_rows row_id (rows t)) (seq t))
  end.

Definition empty_table : Table := mkTable [] 0.

(** [conn.execute(sql, params)]: the statement is compiled against the
    schema first (a missing table is an error, except for
    [CREATE TABLE IF NOT EXISTS], which creates it), then the parameters
    are bound, then it runs. *)
Definition execute (st : statement) : M Cursor :=
  fun s =>
    match s with
    | Unopenable => (Raise unable_to_open, s)
    | NoTable =>
        match st with
        | CreateTableIfNotExists => (Ok (mkCursor 0 (-1) []), Entries empty_table)
        | _ => (Raise no_such_table, s)
        end
    | Entries t =>
        if bindable st then
          match run_statement st t with
          | Ok (cur, t') => (Ok cur, Entries t')
          | Raise e => (Raise e, s)
          end
        else (Raise int_too_large, s)
    end.

(** ** Database helpers *)

(** [get_connection]: [sqlite3.connect(db_path)] followed by
    [PRAGMA foreign_keys = ON], which changes nothing in a schema without
    foreign keys. *)
Definition get_connection : M unit :=
  fun s =>
    match s with
    | Unopenable => (Raise unable_to_open, s)
    | _ => (Ok tt, s)
    end.

Definition init_db : M unit :=
  get_connection ;;
  execute CreateTableIfNotExists ;;
  ret tt.

Definition insert_entry (name email : string) (age : option Z) (notes : string) : M Z :=
  get_connection ;;
  cur <- execute (InsertInto name email age notes) ;;
  ret (lastrowid cur).

Definition view_all : M (list Row) :=
  get_connection ;;
  cur <- execute SelectAllOrderByIdDesc ;;
  ret (fetchall cur).

Definition get_entry (row_id : Z) : M (option Row) :=
  get_connection ;;
  cur <- execute (SelectWhereId row_id) ;;
  ret (fetchone cur).

Definition update_entry (row_id : Z) (name email : string) (age : option Z)
    (notes : string) : M bool :=
  get_connection ;;
  cur <- execute (UpdateWhereId name email age notes row_id) ;;
  ret (0 <? rowcount cur).

Definition delete_entry (row_id : Z) : M bool :=
  get_connection ;;
  cur <- execute (DeleteWhereId row_id) ;;
  ret (0 <? rowcount cur).

(** ** Streamlit UI

    One run of the script is one call of [main] with the state of the
    widgets as the browser sent it.  A widget the user has not touched
    returns its [value=] default; that is [None] here.  Of what the page
    draws, the feedback elements are kept ([st.error], [st.success],
    [st.info], [st.warning], [st.dataframe]); titles, subheaders, rules
    and the caption are the same on every run and are left out. *)

Inductive element : Type :=
| st_error (msg : string)
| st_success (msg : string)
| st_success_added (new_id : Z)
| st_info (msg : string)
| st_warning (msg : string)
| st_dataframe (df : list Row).

Record Widgets : Type := mkWidgets {
  (* add_form *)
  add_name : option string;
  add_email : option string;
  add_age : option Z;
  add_notes : option string;
  add_submitted : bool;
  (* update_form and its selectbox *)
  edit_choice : nat;
  edit_name : option string;
  edit_email : option string;
  edit_age : option Z;
  edit_notes : option string;
  edit_submitted : bool;
  (* delete *)
  del_select : nat;
  del_confirm : bool;
  del_clicked : bool
}.

Definition text_input (value : string) (typed : option string) : string :=
  match typed with Some v => v | None => value end.

Definition text_area (value : string) (typed : option string) : string :=
  match typed with Some v => v | None => value end.

(** The number in a number widget: the default while untouched, else what
    the user entered; an entry outside the bounds is not taken and the
    widget returns the default. *)
Definition entered (min_value max_value value : Z) (typed : option Z) : Z :=
  match typed with
  | Some v => if (min_value <=? v) && (v <=? max_value) then v else value
  | None => value
  end.

(** [st.number_input(min_value, max_value, value)]: a default outside the
    bounds is refused when the widget is built. *)
Definition number_input (min_value max_value value : Z) (typed : option Z) : M Z :=
  if (value <? min_value) || (max_value <? value) then
    raise StreamlitAPIException
  else ret (entered min_value max_value value typed).

(** [st.selectbox(options)]: the option the user chose, the first one
    when the widget is untouched. *)
Definition selectbox {A : Type} (first : A) (options : list A) (choice : nat) : A :=
  nth choice options first.

(** [not s] for a [str]. *)
Definition is_empty (s : string) : bool :=
  match s with EmptyString => true | String _ _ => false end.

(** *** [str.strip()]

    A [str] is held as the bytes of its UTF-8 encoding.  [strip] removes
    the characters [str.isspace] accepts from both ends: U+0009 to U+000D,
    U+001C to U+0020, U+0085, U+00A0, U+1680, U+2000 to U+200A, U+2028,
    U+2029, U+202F, U+205F and U+3000. *)

(** The whitespace characters of one byte. *)
Definition isspace (c : ascii) : bool :=
  let n := nat_of_ascii c in
  ((9 <=? n) && (n <=? 13) || (28 <=? n) && (n <=? 32))%nat.

(** The whitespace characters of two bytes: U+0085 and U+00A0. *)
Definition isspace2 (c d : ascii) : bool :=
  let (m, n) := (N_of_ascii c, N_of_ascii d) in
  ((m =? 194) && ((n =? 133) || (n =? 160)))%N.

(** The whitespace characters of three bytes: U+1680; U+2000 to U+200A,
    U+2028, U+2029, U+202F; U+205F; U+3000. *)
Definition isspace3 (c d e : ascii) : bool :=
  let '(l, m, n) := (N_of_ascii c, N_of_ascii d, N_of_ascii e) in
  ((l =? 225) && (m =? 154) && (n =? 128)
   || (l =? 226) && (m =? 128)
      && ((128 <=? n) && (n <=? 138) || (n =? 168) || (n =? 169) || (n =? 175))
   || (l =? 226) && (m =? 129) && (n =? 159)
   || (l =? 227) && (m =? 128) && (n =? 128))%N.

Fixpoint lstrip (s : string) : string :=
  match s with
  | EmptyString => EmptyString
  | String c s1 =>
      if isspace c then lstrip s1
      else
        match s1 with
        | EmptyString => s
        | String d s2 =>
            if isspace2 c d then lstrip s2
            else
              match s2 with
              | EmptyString => s
              | String e s3 => if isspace3 c d e then lstrip s3 else s
              end
        end
  end.

(** A text that is one whitespace character and nothing else. *)
Definition one_space (s : string) : bool :=
  match s with
  | String c EmptyString => isspace c
  | String c (String d EmptyString) => isspace2 c d
  | String c (String d (String e EmptyString)) => isspace3 c d e
  | _ => false
  end.

Fixpoint rstrip (s : string) : string :=
  match s with
  | EmptyString => EmptyString
  | String c s' =>
      let kept := String c (rstrip s') in
      if one_space kept then EmptyString else kept
  end.

Definition strip (s : string) : string := rstrip (lstrip s).

(** *** Create: the add form *)
Definition add_form (w : Widgets) : M (list element) :=
  let name := text_input EmptyString (add_name w) in
  let email := text_input EmptyString (add_email w) in
  age <- number_input 0 150 18 (add_age w) ;;
  let notes := text_area EmptyString (add_notes w) in
  if add_submitted w then
    if is_empty name || is_empty email then
      ret [st_error "Name and Email are required."]
    else
      new_id <- insert_entry (strip name) (strip email) (Some age) (strip notes) ;;
      ret [st_success_added new_id]
  else ret [].

(** *** Read: the table of records *)
Definition records (rows : list Row) : list element :=
  match rows with
  | [] => [st_info "No records found. Add some via the form above."]
  | _ :: _ => [st_dataframe rows]
  end.

(** [selection_map]: a label starts with the row's id, so rows with
    different ids have different labels and the dict maps each label to
    the id of its row; choosing a label is choosing a row of [rows]. *)
Definition selection_map (rows : list Row) : list Z := map id rows.

(** *** Update: select and edit a record *)
Definition update_form (selected_id : Z) (record : Row) (w : Widgets) : M (list element) :=
  let new_name := text_input (name record) (edit_name w) in
  let new_email := text_input (email record) (edit_email w) in
  new_age <- number_input 0 150
               (match age record with Some a => a | None => 18 end) (edit_age w) ;;
  let new_notes :=
    text_area (match notes record with
               | Some n => if is_empty n then EmptyString else n
               | None => EmptyString
               end) (edit_notes w) in
  if edit_submitted w then
    ok <- update_entry selected_id (strip new_name) (strip new_email)
            (Some new_age) (strip new_notes) ;;
    if ok : bool then ret [st_success "Record updated successfully."]
    else ret [st_error "Failed to update record. It may have been removed."]
  else ret [].

Definition update_section (rows : list Row) (w : Widgets) : M (list element) :=
  match rows with
  | [] => ret [st_info "No records to update."]
  | r0 :: _ =>
      let selected_id := selectbox (id r0) (selection_map rows) (edit_choice w) in
      record <- get_entry selected_id ;;
      match record with
      | Some record => update_form selected_id record w
      | None => ret [st_warning "Selected record not found."]
      end
  end.

(** *** Delete: pick and delete a record *)
Definition delete_section (rows : list Row) (w : Widgets) : M (list element) :=
  match rows with
  | [] => ret [st_info "No records to delete."]
  | r0 :: _ =>
      let del_id := selectbox (id r0) (selection_map rows) (del_select w) in
      if del_clicked w then
        if negb (del_confirm w) then
          ret [st_warning "Please check 'Confirm delete' before pressing Delete."]
        else
          deleted <- delete_entry del_id ;;
          if deleted : bool then ret [st_success "Record deleted successfully"]
          else ret [st_error "Failed to delete. It might already be removed."]
      else ret []
  end.

Definition main (w : Widgets) : M (list element) :=
  init_db ;;
  added <- add_form w ;;
  rows <- view_all ;;
  updated <- update_section rows w ;;
  deleted <- delete_section rows w ;;
  ret (added ++ records rows ++ updated ++ deleted).

(** ** Tables the program can hold

    [PRIMARY KEY]: no two rows share an id.  [AUTOINCREMENT]: every id was
    generated, so it lies between 1 and the counter, and the counter is an
    INTEGER. *)
Record wf (t : Table) : Prop := mkWf {
  wf_keys : NoDup (map id (rows t));
  wf_seq : Forall (fun i => 1 <= i <= seq t) (map id (rows t));
  wf_max : 0 <= seq t <= MAX_ROWID
}.

(** An optional age that can be bound to a placeholder. *)
Definition storable (a : option Z) : bool :=
  match a with
  | Some z => fits_int64 z
  | None => true
  end.

(** The rows a store holds: none while there is no table. *)
Definition stored (s : Store) : list Row :=
  match s with
  | Entries t => rows t
  | Unopenable | NoTable => []
  end.

(** Descending by id, as [ORDER BY id DESC] leaves two rows. *)
Definition by_id_desc (a b : Row) : Prop := id b <= id a.

(** The script of the scenario: three inserts into a new file, then the
    listing. *)
Definition three_inserts_then_view_all
    (n1 e1 : string) (a1 : option Z) (t1 : string)
    (n2 e2 : string) (a2 : option Z) (t2 : string)
    (n3 e3 : string) (a3 : option Z) (t3 : string) : M (Z * Z * Z * list Row) :=
  init_db ;;
  i1 <- insert_entry n1 e1 a1 t1 ;;
  i2 <- insert_entry n2 e2 a2 t2 ;;
  i3 <- insert_entry n3 e3 a3 t3 ;;
  l <- view_all ;;
  ret (i1, i2, i3, l).

(** A store the program can hold, and its counter. *)
Definition ok_store (s : Store) : Prop :=
  match s with
  | Entries t => wf t
  | Unopenable | NoTable => True
  end.

Definition counter (s : Store) : Z :=
  match s with
  | Entries t => seq t
  | Unopenable | NoTable => 0
  end.

(** ** Sequences of gateway calls *)
Inductive call : Type :=
| Init
| Create (name email : string) (age : option Z) (notes : string)
| Update (row_id : Z) (name email : string) (age : option Z) (notes : string)
| Delete (row_id : Z).

(** The store after a call; what the call returned is dropped. *)
Definition after (c : call) (s : Store) : Store :=
  match c with
  | Init => snd (init_db s)
  | Create nm em ag nt => snd (insert_entry nm em ag nt s)
  | Update i nm em ag nt => snd (update_entry i nm em ag nt s)
  | Delete i => snd (delete_entry i s)
  end.

Definition after_all (cs : list call) (s : Store) : Store :=
  fold_left (fun s c => after c s) cs s.

(** Strictly descending by id: the order of a listing when no two rows
    share an id. *)
Definition by_id_strictly_desc (a b : Row) : Prop := id b < id a.

(** The arguments of one [insert_entry]. *)
Definition fields : Type := string * string * option Z * string.

(** [insert_entry] for each of the records, in order; the ids returned. *)
Fixpoint insert_each (l : list fields) : M (list Z) :=
  match l with
  | [] => ret []
  | (name, email, age, notes) :: l' =>
      i <- insert_entry name email age notes ;;
      rest <- insert_each l' ;;
      ret (i :: rest)
  end.

(** The rows of the records under the keys [k + 1], [k + 2], ... *)
Fixpoint numbered (k : Z) (l : list fields) : list Row :=
  match l with
  | [] => []
  | (name, email, age, notes) :: l' =>
      new_row (k + 1) name email age notes :: numbered (k + 1) l'
  end.

Definition age_of (f : fields) : option Z := snd (fst f).

(** A text of one-byte whitespace only (the empty text included). *)
Fixpoint blank (s : string) : bool :=
  match s with
  | EmptyString => true
  | String c s' => isspace c && blank s'
  end.

(** The id the select box of a listing gives for a choice. *)
Definition chosen (listing : list Row) (choice : nat) : Z :=
  match listing with
  | [] => 0
  | r0 :: _ => selectbox (id r0) (selection_map listing) choice
  end.

(** A row whose age the update form can show: [NULL], or within the bounds
    of the number field. *)
Definition presentable (r : Row) : Prop :=
  match age r with
  | Some a => 0 <= a <= 150
  | None => True
  end.

(** Whether a text begins with a whitespace character. *)
Definition leading_space (s : string) : bool :=
  match s with
  | EmptyString => false
  | String c s1 =>
      isspace c
      || match s1 with
         | EmptyString => false
         | String d s2 =>
             isspace2 c d
             || match s2 with
                | EmptyString => false
                | String e _ => isspace3 c d e
                end
         end
  end.

(** What the update form of a record sends to [update_entry] when the
    number field can be built: the widgets' values, stripped. *)
Definition new_name (record : Row) (w : Widgets) : string :=
  strip (text_input (name record) (edit_name w)).

Definition new_email (record : Row) (w : Widgets) : string :=
  strip (text_input (email record) (edit_email w)).

Definition new_age (record : Row) (w : Widgets) : Z :=
  entered 0 150 (match age record with Some a => a | None => 18 end) (edit_age w).

Definition new_notes (record : Row) (w : Widgets) : string :=
  strip (text_area (match notes record with
                    | Some n => if is_empty n then EmptyString else n
                    | None => EmptyString
                    end) (edit_notes w)).

(** The row the add form sends to [insert_entry] under the key [i]. *)
Definition added_row (i : Z) (w : Widgets) : Row :=
  new_row i (strip (text_input EmptyString (add_name w)))
            (strip (text_input EmptyString (add_email w)))
            (Some (entered 0 150 18 (add_age w)))
            (strip (text_area EmptyString (add_notes w))).

(** ** Sample data: stores and widget states *)

Definition alice : Row := new_row 1 "Alice" "alice@x.com" (Some 30) "vip".
Definition bob : Row := mkRow 2 "Bob" "bob@x.com" None None.

Definition two_rows : Table := mkTable [alice; bob] 2.

(** A table whose counter has reached the largest INTEGER. *)
Definition exhausted : Table := mkTable [] MAX_ROWID.

(** Nothing typed, nothing pressed. *)
Definition untouched : Widgets :=
  mkWidgets None None None None false 0%nat None None None None false 0%nat false false.

(** The add form filled in and submitted. *)
Definition adding (name email : string) : Widgets :=
  mkWidgets (Some name) (Some email) None None true
            0%nat None None None None false 0%nat false false.

(** The update form of the row chosen by [choice], saved as it was
    pre-filled. *)
Definition saving (choice : nat) : Widgets :=
  mkWidgets None None None None false choice None None None None true 0%nat false false.

(** The table of Alice and Bob in the other order. *)
Definition two_rows_swapped : Table := mkTable [bob; alice] 2.

(** A row whose age no form would write, and a table that holds it. *)
Definition carol : Row := mkRow 3 "Carol" "carol@x.com" (Some 200) None.

Definition three_rows : Table := mkTable [alice; bob; carol] 3.

(** The delete button pressed on the row chosen by [choice]; the
    confirmation box as given. *)
Definition deleting (choice : nat) (confirm : bool) : Widgets :=
  mkWidgets None None None None false 0%nat None None None None false choice confirm true.

(** The update form of the row chosen by [choice], saved with the name
    field cleared. *)
Definition clearing_name (choice : nat) : Widgets :=
  mkWidgets None None None None false
            choice (Some EmptyString) None None None true 0%nat false false.

(** * Properties *)

(** ** Arithmetic of keys *)

Ltac int64_lia := unfold MAX_ROWID, MIN_INT64 in *; lia.

Lemma fits_int64_iff (z : Z) : fits_int64 z = true <-> MIN_INT64 <= z <= MAX_ROWID.
Proof.
  unfold fits_int64. rewrite andb_true_iff, !Z.leb_le. tauto.
Qed.

Lemma fold_max_ge (l : list Z) (a : Z) :
  a <= fold_left Z.max l a /\ forall x, In x l -> x <= fold_left Z.max l a.
Proof.
  revert a. induction l as [|y l IH]; intros a; simpl.
  - split; [lia | tauto].
  - destruct (IH (Z.max a y)) as [Ha Hl]. split; [lia|].
    intros x [<- | Hx]; [lia | auto].
Qed.

Lemma fold_max_in (l : list Z) (a : Z) :
  fold_left Z.max l a = a \/ In (fold_left Z.max l a) l.
Proof.
  revert a. induction l as [|y l IH]; intros a; simpl; [now left|].
  destruct (IH (Z.max a y)) as [E | I]; [|now right; right].
  rewrite E. destruct (Z.max_spec a y) as [[_ ->] | [_ ->]]; auto.
Qed.

Lemma max_rowid_upper (rs : list Row) (m : Z) :
  max_rowid rs = Some m -> forall r, In r rs -> id r <= m.
Proof.
  destruct rs as [|r0 rs]; simpl; [discriminate|].
  intros [= <-] r [<- | Hr].
  - apply (proj1 (fold_max_ge _ _)).
  - apply (proj2 (fold_max_ge _ _)), in_map, Hr.
Qed.

Lemma max_rowid_attained (rs : list Row) (m : Z) :
  max_rowid rs = Some m -> exists r, In r rs /\ id r = m.
Proof.
  destruct rs as [|r0 rs]; simpl; [discriminate|].
  intros [= <-]. destruct (fold_max_in (map id rs) (id r0)) as [E | I].
  - exists r0. auto.
  - apply in_map_iff in I. destruct I as (r & E & Hr). exists r. auto.
Qed.

(** A generated key is larger than every key in the table and than the
    counter, and is an INTEGER no larger than the largest one. *)
Lemma new_rowid_fresh (t : Table) (i : Z) :
  new_rowid t = Some i ->
  (forall r, In r (rows t) -> id r < i) /\ seq t < i /\ i <= MAX_ROWID.
Proof.
  unfold new_rowid. destruct (max_rowid (rows t)) as [m|] eqn:Em.
  - destruct (MAX_ROWID <=? m) eqn:Hm; [discriminate|].
    destruct (MAX_ROWID <=? seq t) eqn:Hs; [discriminate|].
    intros [= <-]. apply Z.leb_gt in Hm, Hs.
    repeat split; try int64_lia.
    intros r Hr. pose proof (max_rowid_upper _ _ Em r Hr). lia.
  - destruct (MAX_ROWID <=? seq t) eqn:Hs; [discriminate|].
    intros [= <-]. apply Z.leb_gt in Hs.
    destruct (rows t); [|discriminate].
    repeat split; try int64_lia. intros r [].
Qed.

Lemma new_rowid_wf (t : Table) :
  wf t -> seq t < MAX_ROWID -> new_rowid t = Some (seq t + 1).
Proof.
  intros [_ Hseq Hmax] Hroom. unfold new_rowid.
  destruct (max_rowid (rows t)) as [m|] eqn:Em.
  - destruct (max_rowid_attained _ _ Em) as (r & Hr & <-).
    rewrite Forall_forall in Hseq. specialize (Hseq (id r) (in_map id _ _ Hr)).
    destruct (MAX_ROWID <=? id r) eqn:Hm; [apply Z.leb_le in Hm; int64_lia|].
    destruct (MAX_ROWID <=? seq t) eqn:Hs; [apply Z.leb_le in Hs; int64_lia|].
    f_equal. int64_lia.
  - destruct (MAX_ROWID <=? seq t) eqn:Hs; [apply Z.leb_le in Hs; int64_lia|].
    f_equal. int64_lia.
Qed.

Lemma new_rowid_full (t : Table) : MAX_ROWID <= seq t -> new_rowid t = None.
Proof.
  intros H. apply Z.leb_le in H. unfold new_rowid. rewrite H.
  destruct (max_rowid (rows t)) as [m|]; [destruct (MAX_ROWID <=? m)|]; reflexivity.
Qed.

(** ** The gateway on an existing table

    What each gateway function computes once the file holds the table:
    the equations the properties below rewrite with. *)

Lemma insert_entry_eq (t : Table) (nm em : string) (ag : option Z) (nt : string) :
  insert_entry nm em ag nt (Entries t) =
    if storable ag then
      match new_rowid t with
      | Some i => (Ok i, Entries (mkTable (rows t ++ [new_row i nm em ag nt]) i))
      | None => (Raise database_full, Entries t)
      end
    else (Raise int_too_large, Entries t).
Proof.
  unfold insert_entry, bind, execute, bindable; simpl.
  destruct ag as [z|]; simpl; rewrite ?andb_true_r;
    [destruct (fits_int64 z); [|reflexivity]|];
    destruct (new_rowid t); reflexivity.
Qed.

Lemma get_entry_eq (t : Table) (i : Z) :
  get_entry i (Entries t) =
    if fits_int64 i then (Ok (hd_error (filter (has_id i) (rows t))), Entries t)
    else (Raise int_too_large, Entries t).
Proof.
  unfold get_entry, bind, execute, bindable; simpl. rewrite andb_true_r.
  destruct (fits_int64 i); reflexivity.
Qed.

Lemma update_entry_eq (t : Table) (i : Z) (nm em : string) (ag : option Z) (nt : string) :
  update_entry i nm em ag nt (Entries t) =
    if storable ag && fits_int64 i then
      (Ok (0 <? count (has_id i) (rows t)),
       Entries (mkTable (updated_rows i nm em ag nt (rows t)) (seq t)))
    else (Raise int_too_large, Entries t).
Proof.
  unfold update_entry, bind, execute, bindable; simpl.
  destruct ag as [z|]; simpl; rewrite ?andb_true_r;
    [destruct (fits_int64 z); simpl|]; destruct (fits_int64 i); reflexivity.
Qed.

Lemma delete_entry_eq (t : Table) (i : Z) :
  delete_entry i (Entries t) =
    if fits_int64 i then
      (Ok (0 <? count (has_id i) (rows t)),
       Entries (mkTable (remaining_rows i (rows t)) (seq t)))
    else (Raise int_too_large, Entries t).
Proof.
  unfold delete_entry, bind, execute, bindable; simpl. rewrite andb_true_r.
  destruct (fits_int64 i); reflexivity.
Qed.

Lemma view_all_eq (t : Table) :
  view_all (Entries t) = (Ok (order_by_id_desc (rows t)), Entries t).
Proof. reflexivity. Qed.

(** ** [WHERE id = ?] on lists of rows *)

Lemma has_id_true (i : Z) (r : Row) : has_id i r = true <-> id r = i.
Proof. unfold has_id. apply Z.eqb_eq. Qed.

Lemma has_id_false (i : Z) (r : Row) : has_id i r = false <-> id r <> i.
Proof. unfold has_id. apply Z.eqb_neq. Qed.

Lemma filter_none (i : Z) (rs : list Row) :
  ~ In i (map id rs) -> filter (has_id i) rs = [].
Proof.
  induction rs as [|r rs IH]; simpl; [reflexivity|]. intros H.
  destruct (has_id i r) eqn:E.
  - apply has_id_true in E. tauto.
  - apply IH. tauto.
Qed.

Lemma count_positive (i : Z) (rs : list Row) :
  (0 <? count (has_id i) rs) = true <-> In i (map id rs).
Proof.
  unfold count. rewrite Z.ltb_lt. induction rs as [|r rs IH]; simpl.
  - split; [lia | tauto].
  - destruct (has_id i r) eqn:E; simpl.
    + apply has_id_true in E. split; [auto | lia].
    + apply has_id_false in E. rewrite IH. tauto.
Qed.

Lemma count_zero (i : Z) (rs : list Row) :
  ~ In i (map id rs) -> (0 <? count (has_id i) rs) = false.
Proof.
  intros H. destruct (0 <? count (has_id i) rs) eqn:E; [|reflexivity].
  apply count_positive in E. contradiction.
Qed.

Lemma updated_rows_ids (i : Z) nm em ag nt (rs : list Row) :
  map id (updated_rows i nm em ag nt rs) = map id rs.
Proof.
  unfold updated_rows. rewrite map_map. apply map_ext.
  intros r. destruct (has_id i r); reflexivity.
Qed.

Lemma updated_rows_absent (i : Z) nm em ag nt (rs : list Row) :
  ~ In i (map id rs) -> updated_rows i nm em ag nt rs = rs.
Proof.
  unfold updated_rows. induction rs as [|r rs IH]; simpl; [reflexivity|].
  intros H. destruct (has_id i r) eqn:E.
  - apply has_id_true in E. tauto.
  - f_equal. apply IH. tauto.
Qed.

Lemma filter_updated_rows (i : Z) nm em ag nt (rs : list Row) :
  filter (has_id i) (updated_rows i nm em ag nt rs) =
  map (set_fields nm em ag nt) (filter (has_id i) rs).
Proof.
  unfold updated_rows. induction rs as [|r rs IH]; simpl; [reflexivity|].
  destruct (has_id i r) eqn:E; simpl.
  - unfold has_id in *. simpl. rewrite E. simpl. f_equal. exact IH.
  - rewrite E. exact IH.
Qed.

Lemma remaining_rows_updated (i : Z) nm em ag nt (rs : list Row) :
  remaining_rows i (updated_rows i nm em ag nt rs) = remaining_rows i rs.
Proof.
  unfold remaining_rows, updated_rows. induction rs as [|r rs IH]; simpl; [reflexivity|].
  destruct (has_id i r) eqn:E; simpl.
  - unfold has_id in *. simpl. rewrite E. simpl. exact IH.
  - rewrite E. simpl. f_equal. exact IH.
Qed.

Lemma remaining_rows_ids (i : Z) (rs : list Row) :
  ~ In i (map id (remaining_rows i rs)).
Proof.
  unfold remaining_rows. rewrite in_map_iff. intros (r & E & Hr).
  apply filter_In in Hr. destruct Hr as [_ Hr].
  apply negb_true_iff, has_id_false in Hr. contradiction.
Qed.

Lemma remaining_rows_idem (i : Z) (rs : list Row) :
  remaining_rows i (remaining_rows i rs) = remaining_rows i rs.
Proof.
  unfold remaining_rows. induction rs as [|r rs IH]; simpl; [reflexivity|].
  destruct (has_id i r) eqn:E; simpl; [exact IH|]. rewrite E. simpl. f_equal. exact IH.
Qed.

Lemma filter_appended (i : Z) (rs : list Row) (r : Row) :
  (forall r', In r' rs -> id r' < i) -> id r = i ->
  filter (has_id i) (rs ++ [r]) = [r].
Proof.
  intros Hlt Hr. rewrite filter_app. rewrite filter_none.
  - simpl. apply has_id_true in Hr. rewrite Hr. reflexivity.
  - rewrite in_map_iff. intros (r' & E & Hr'). specialize (Hlt r' Hr'). lia.
Qed.

(** ** Create, then read *)

Lemma insert_entry_row (t : Table) (nm em : string) (ag : option Z) (nt : string) :
  wf t -> seq t < MAX_ROWID -> storable ag = true ->
  let new_id := seq t + 1 in
  let t' := mkTable (rows t ++ [new_row new_id nm em ag nt]) new_id in
  insert_entry nm em ag nt (Entries t) = (Ok new_id, Entries t') /\
  ~ In new_id (map id (rows t)) /\
  get_entry new_id (Entries t') = (Ok (Some (new_row new_id nm em ag nt)), Entries t').
Proof.
  intros Hwf Hroom Hag new_id t'.
  pose proof (new_rowid_wf t Hwf Hroom) as Hnew.
  destruct (new_rowid_fresh t _ Hnew) as (Hfresh & _ & _).
  rewrite insert_entry_eq, Hag, Hnew. split; [reflexivity|]. split.
  - rewrite in_map_iff. intros (r & E & Hr). specialize (Hfresh r Hr). lia.
  - rewrite get_entry_eq.
    assert (fits_int64 new_id = true) as ->.
    { apply fits_int64_iff. destruct Hwf as [_ _ Hmax]. subst new_id. int64_lia. }
    simpl. rewrite filter_appended; auto.
Qed.

(** C1.  On a table the program can hold with keys left, for a name and an
    email that are not empty, an age that is absent or an INTEGER, and any
    notes, [insert_entry] returns a key no row of the table had, and
    [get_entry] of that key then returns the row with that key and exactly
    the name, email, age and notes given. *)
Theorem insert_entry_then_get_entry
    (t : Table) (nm em : string) (ag : option Z) (nt : string) :
  wf t -> seq t < MAX_ROWID ->
  nm <> EmptyString -> em <> EmptyString -> storable ag = true ->
  exists new_id s',
    insert_entry nm em ag nt (Entries t) = (Ok new_id, s') /\
    ~ In new_id (map id (rows t)) /\
    get_entry new_id s' =
      (Ok (Some {| id := new_id; name := nm; email := em; age := ag; notes := Some nt |}),
       s').
Proof.
  intros Hwf Hroom _ _ Hag.
  destruct (insert_entry_row t nm em ag nt Hwf Hroom Hag) as (Hi & Hn & Hg).
  eexists _, _. split; [exact Hi|]. split; [exact Hn|exact Hg].
Qed.

(** ** Update *)

Lemma update_entry_present
    (t : Table) (i : Z) (nm em : string) (ag : option Z) (nt : string) :
  fits_int64 i = true -> storable ag = true -> In i (map id (rows t)) ->
  let t' := mkTable (updated_rows i nm em ag nt (rows t)) (seq t) in
  update_entry i nm em ag nt (Entries t) = (Ok true, Entries t') /\
  (forall r, In r (rows t') -> id r = i -> r = new_row i nm em ag nt) /\
  get_entry i (Entries t') = (Ok (Some (new_row i nm em ag nt)), Entries t').
Proof.
  intros Hi Hag Hin t'. rewrite update_entry_eq, Hag, Hi. simpl. split; [|split].
  - rewrite (proj2 (count_positive i (rows t)) Hin). reflexivity.
  - simpl. unfold updated_rows. intros r Hr E.
    apply in_map_iff in Hr. destruct Hr as (r0 & <- & _).
    destruct (has_id i r0) eqn:E0.
    + apply has_id_true in E0. unfold set_fields, new_row. now rewrite E0.
    + simpl in E. apply has_id_false in E0. contradiction.
  - rewrite get_entry_eq, Hi. simpl. rewrite filter_updated_rows.
    apply in_map_iff in Hin. destruct Hin as (r & E & Hr).
    destruct (filter (has_id i) (rows t)) as [|r1 l] eqn:Ef.
    + exfalso. assert (In r (filter (has_id i) (rows t))) as Hf
        by (apply filter_In; split; [exact Hr | now apply has_id_true]).
      rewrite Ef in Hf. exact Hf.
    + simpl. assert (In r1 (filter (has_id i) (rows t))) as Hf
        by (rewrite Ef; now left).
      apply filter_In in Hf. destruct Hf as [_ Hf]. apply has_id_true in Hf.
      unfold set_fields, new_row. now rewrite Hf.
Qed.

Lemma update_entry_absent
    (t : Table) (i : Z) (nm em : string) (ag : option Z) (nt : string) :
  fits_int64 i = true -> storable ag = true -> ~ In i (map id (rows t)) ->
  update_entry i nm em ag nt (Entries t) = (Ok false, Entries t).
Proof.
  intros Hi Hag Hout. rewrite update_entry_eq, Hag, Hi. simpl.
  rewrite count_zero by exact Hout.
  rewrite updated_rows_absent by exact Hout. now destruct t.
Qed.

(** C2.  For an id that is an INTEGER and an age that is absent or an
    INTEGER: when a row of the table has the id, [update_entry] returns
    [True], every row with that id now carries the given name, email, age
    and notes, and [get_entry] returns the row with the id and these
    fields; when no row has the id, [update_entry] returns [False] and the
    store is the one it was. *)
Theorem update_entry_then_get_entry
    (t : Table) (i : Z) (nm em : string) (ag : option Z) (nt : string) :
  fits_int64 i = true -> storable ag = true ->
  (In i (map id (rows t)) ->
   exists t',
     update_entry i nm em ag nt (Entries t) = (Ok true, Entries t') /\
     (forall r, In r (rows t') -> id r = i -> r = new_row i nm em ag nt) /\
     get_entry i (Entries t') = (Ok (Some (new_row i nm em ag nt)), Entries t')) /\
  (~ In i (map id (rows t)) ->
   update_entry i nm em ag nt (Entries t) = (Ok false, Entries t)).
Proof.
  intros Hi Hag. split.
  - intros Hin. eexists. exact (update_entry_present t i nm em ag nt Hi Hag Hin).
  - now apply update_entry_absent.
Qed.

(** ** Delete *)

(** C3.  For an id that is an INTEGER, [delete_entry] returns [True]
    exactly when a row of the table had the id, no row has it afterwards,
    [get_entry] of the id then returns [None], and a second [delete_entry]
    of the id returns [False] and changes nothing. *)
Theorem delete_entry_then_get_entry (t : Table) (i : Z) :
  fits_int64 i = true ->
  exists (deleted : bool) (s' : Store),
    delete_entry i (Entries t) = (Ok deleted, s') /\
    (deleted = true <-> In i (map id (rows t))) /\
    ~ In i (map id (stored s')) /\
    get_entry i s' = (Ok None, s') /\
    delete_entry i s' = (Ok false, s').
Proof.
  intros Hi. rewrite delete_entry_eq, Hi. eexists _, _.
  split; [reflexivity|]. split; [apply count_positive|].
  split; [apply remaining_rows_ids|]. split.
  - rewrite get_entry_eq, Hi. simpl.
    rewrite filter_none by apply remaining_rows_ids. reflexivity.
  - rewrite delete_entry_eq, Hi. simpl.
    rewrite count_zero by apply remaining_rows_ids.
    rewrite remaining_rows_idem. reflexivity.
Qed.

(** ** Read all: [ORDER BY id DESC] *)

Lemma insert_desc_perm (r : Row) (rs : list Row) :
  Permutation (insert_desc r rs) (r :: rs).
Proof.
  induction rs as [|r' rs IH]; simpl; [reflexivity|].
  destruct (id r' <=? id r); [reflexivity|].
  rewrite IH. apply perm_swap.
Qed.

Lemma order_by_id_desc_perm (rs : list Row) :
  Permutation (order_by_id_desc rs) rs.
Proof.
  induction rs as [|r rs IH]; simpl; [constructor|].
  rewrite insert_desc_perm. now constructor.
Qed.

Lemma insert_desc_sorted (r : Row) (rs : list Row) :
  StronglySorted by_id_desc rs -> StronglySorted by_id_desc (insert_desc r rs).
Proof.
  induction 1 as [|r' rs Hs IH Hall]; simpl.
  - repeat constructor.
  - destruct (id r' <=? id r) eqn:E.
    + apply Z.leb_le in E. constructor; [now constructor|].
      constructor; [exact E|].
      eapply Forall_impl; [|exact Hall]. unfold by_id_desc. intros; lia.
    + apply Z.leb_gt in E. constructor; [exact IH|].
      eapply Permutation_Forall; [symmetry; apply insert_desc_perm|].
      constructor; [unfold by_id_desc; lia | exact Hall].
Qed.

Lemma order_by_id_desc_sorted (rs : list Row) :
  StronglySorted by_id_desc (order_by_id_desc rs).
Proof.
  induction rs as [|r rs IH]; simpl; [constructor|].
  now apply insert_desc_sorted.
Qed.

(** C4.  [view_all] on a table returns the rows of the table, each as
    often as the table has it, with ids descending; three inserts into a
    new file get the ids 1, 2, 3 and [view_all] then lists the rows 3, 2,
    1; on a table without rows it returns the empty list. *)
Theorem view_all_rows_by_id_descending :
  (forall t, exists l,
      view_all (Entries t) = (Ok l, Entries t) /\
      Permutation l (rows t) /\ StronglySorted by_id_desc l) /\
  (forall n1 e1 a1 t1 n2 e2 a2 t2 n3 e3 a3 t3,
      storable a1 = true -> storable a2 = true -> storable a3 = true ->
      fst (three_inserts_then_view_all n1 e1 a1 t1 n2 e2 a2 t2 n3 e3 a3 t3 NoTable) =
      Ok (1, 2, 3, [new_row 3 n3 e3 a3 t3; new_row 2 n2 e2 a2 t2; new_row 1 n1 e1 a1 t1])) /\
  (forall c, view_all (Entries (mkTable [] c)) = (Ok [], Entries (mkTable [] c))).
Proof.
  split; [|split].
  - intros t. exists (order_by_id_desc (rows t)).
    split; [apply view_all_eq|].
    split; [apply order_by_id_desc_perm | apply order_by_id_desc_sorted].
  - intros n1 e1 a1 t1 n2 e2 a2 t2 n3 e3 a3 t3 H1 H2 H3.
    unfold three_inserts_then_view_all, bind at 1 2.
    change (init_db NoTable) with (Ok tt, Entries empty_table).
    cbv beta iota. rewrite insert_entry_eq, H1.
    change (new_rowid empty_table) with (Some 1). cbv beta iota.
    unfold bind at 1. rewrite insert_entry_eq, H2. cbn [rows seq].
    change (new_rowid _) with (Some 2). cbv beta iota.
    unfold bind at 1. rewrite insert_entry_eq, H3. cbn [rows seq].
    change (new_rowid _) with (Some 3). reflexivity.
  - reflexivity.
Qed.

(** ** Initialisation *)

(** C6.  [init_db] on a store that has the table succeeds and leaves the
    table, rows and counter, as it is; on a new file it creates the table
    without rows; and on every store a second [init_db] returns what the
    first returned and leaves the store the first left. *)
Theorem init_db_idempotent :
  (forall t, init_db (Entries t) = (Ok tt, Entries t)) /\
  init_db NoTable = (Ok tt, Entries empty_table) /\
  (forall s, init_db (snd (init_db s)) = (fst (init_db s), snd (init_db s))).
Proof.
  split; [|split].
  - reflexivity.
  - reflexivity.
  - intros [| |t]; reflexivity.
Qed.

(** ** Other rows *)

Lemma insert_entry_appends (s : Store) (nm em : string) (ag : option Z) (nt : string) :
  stored (snd (insert_entry nm em ag nt s)) = stored s \/
  exists i, fst (insert_entry nm em ag nt s) = Ok i /\
            stored (snd (insert_entry nm em ag nt s)) = stored s ++ [new_row i nm em ag nt].
Proof.
  destruct s as [| |t]; [now left | now left |].
  rewrite insert_entry_eq. destruct (storable ag); [|now left].
  destruct (new_rowid t) as [i|]; [|now left].
  right. exists i. split; reflexivity.
Qed.

Lemma update_entry_stored (s : Store) (i : Z) (nm em : string) (ag : option Z) (nt : string) :
  stored (snd (update_entry i nm em ag nt s)) = stored s \/
  stored (snd (update_entry i nm em ag nt s)) = updated_rows i nm em ag nt (stored s).
Proof.
  destruct s as [| |t]; [now left | now left |].
  rewrite update_entry_eq. destruct (storable ag && fits_int64 i); [now right | now left].
Qed.

Lemma delete_entry_stored (s : Store) (i : Z) :
  stored (snd (delete_entry i s)) = stored s \/
  stored (snd (delete_entry i s)) = remaining_rows i (stored s).
Proof.
  destruct s as [| |t]; [now left | now left |].
  rewrite delete_entry_eq. destruct (fits_int64 i); [now right | now left].
Qed.

(** C9.  On every store and for every id and arguments, the rows whose id
    is not the one given are the same rows, in the same order, after
    [update_entry] and after [delete_entry] as before; after
    [insert_entry] the rows the store had are all there, unchanged and in
    their order, followed by at most the new row. *)
Theorem other_rows_untouched
    (s : Store) (i : Z) (nm em : string) (ag : option Z) (nt : string) :
  remaining_rows i (stored (snd (update_entry i nm em ag nt s))) = remaining_rows i (stored s) /\
  remaining_rows i (stored (snd (delete_entry i s))) = remaining_rows i (stored s) /\
  exists added, stored (snd (insert_entry nm em ag nt s)) = stored s ++ added /\
                (List.length added <= 1)%nat.
Proof.
  split; [|split].
  - destruct (update_entry_stored s i nm em ag nt) as [-> | ->];
      [reflexivity | apply remaining_rows_updated].
  - destruct (delete_entry_stored s i) as [-> | ->];
      [reflexivity | apply remaining_rows_idem].
  - destruct (insert_entry_appends s nm em ag nt) as [-> | (k & _ & ->)].
    + exists []. rewrite app_nil_r. split; [reflexivity | simpl; lia].
    + eexists. split; [reflexivity | simpl; lia].
Qed.

(** ** Keys over sequences of calls *)

Lemma wf_empty_table : wf empty_table.
Proof. split; simpl; [constructor | constructor | int64_lia]. Qed.

Lemma wf_insert (t : Table) (i : Z) (nm em : string) (ag : option Z) (nt : string) :
  wf t -> new_rowid t = Some i ->
  wf (mkTable (rows t ++ [new_row i nm em ag nt]) i).
Proof.
  intros [Hk Hs Hm] Hnew.
  destruct (new_rowid_fresh t i Hnew) as (Hfresh & Hseq & Hmax).
  split; simpl; rewrite ?map_app; simpl.
  - eapply Permutation_NoDup; [apply Permutation_cons_append|].
    constructor; [|exact Hk].
    rewrite in_map_iff. intros (r & E & Hr). specialize (Hfresh r Hr). lia.
  - apply Forall_app. split.
    + eapply Forall_impl; [|exact Hs]. simpl. intros; lia.
    + constructor; [lia | constructor].
  - lia.
Qed.

Lemma wf_update (t : Table) (i : Z) (nm em : string) (ag : option Z) (nt : string) :
  wf t -> wf (mkTable (updated_rows i nm em ag nt (rows t)) (seq t)).
Proof.
  intros [Hk Hs Hm]. split; simpl; rewrite ?updated_rows_ids; assumption.
Qed.

Lemma NoDup_ids_filter (f : Row -> bool) (rs : list Row) :
  NoDup (map id rs) -> NoDup (map id (filter f rs)).
Proof.
  induction rs as [|r rs IH]; simpl; [auto|].
  intros H. apply NoDup_cons_iff in H. destruct H as [Hn Hd].
  destruct (f r); simpl; [|auto].
  constructor; [|auto]. rewrite in_map_iff in *.
  intros (r' & E & Hr'). apply Hn. exists r'. apply filter_In in Hr'. tauto.
Qed.

Lemma wf_delete (t : Table) (i : Z) :
  wf t -> wf (mkTable (remaining_rows i (rows t)) (seq t)).
Proof.
  intros [Hk Hs Hm]. split; simpl; [now apply NoDup_ids_filter | | exact Hm].
  rewrite Forall_forall in *. intros k Hk'. apply Hs.
  apply in_map_iff in Hk'. destruct Hk' as (r & <- & Hr).
  apply in_map. apply filter_In in Hr. tauto.
Qed.

(** Every call keeps the store one the program can hold, and never lowers
    the counter. *)
Lemma after_ok (c : call) (s : Store) :
  ok_store s -> ok_store (after c s) /\ counter s <= counter (after c s).
Proof.
  intros Hs. destruct c as [|nm em ag nt|i nm em ag nt|i]; simpl.
  - destruct s as [| |t]; simpl;
      [split; [exact I|lia] | split; [apply wf_empty_table|lia] | split; [exact Hs|lia]].
  - destruct s as [| |t]; simpl; [split; [exact I|lia] ..|].
    rewrite insert_entry_eq. destruct (storable ag); [|simpl; split; [exact Hs|lia]].
    destruct (new_rowid t) as [k|] eqn:Hnew; simpl; [|split; [exact Hs|lia]].
    split; [now apply wf_insert|]. apply new_rowid_fresh in Hnew. lia.
  - destruct s as [| |t]; simpl; [split; [exact I|lia] ..|].
    rewrite update_entry_eq.
    destruct (storable ag && fits_int64 i); simpl; [|split; [exact Hs|lia]].
    split; [now apply wf_update | lia].
  - destruct s as [| |t]; simpl; [split; [exact I|lia] ..|].
    rewrite delete_entry_eq.
    destruct (fits_int64 i); simpl; [|split; [exact Hs|lia]].
    split; [now apply wf_delete | lia].
Qed.

Lemma after_all_ok (cs : list call) (s : Store) :
  ok_store s -> ok_store (after_all cs s) /\ counter s <= counter (after_all cs s).
Proof.
  revert s. induction cs as [|c cs IH]; intros s Hs; simpl.
  - split; [exact Hs | lia].
  - destruct (after_ok c s Hs) as [Hc Hle].
    destruct (IH (after c s) Hc) as [Hcs Hle'].
    split; [exact Hcs | lia].
Qed.

Lemma stored_below_counter (s : Store) (r : Row) :
  ok_store s -> In r (stored s) -> id r <= counter s.
Proof.
  destruct s as [| |t]; simpl; [tauto | tauto |].
  intros [_ Hs _] Hr. rewrite Forall_forall in Hs.
  specialize (Hs (id r) (in_map id _ _ Hr)). lia.
Qed.

Lemma insert_entry_above_counter (s s' : Store) nm em ag nt (new_id : Z) :
  insert_entry nm em ag nt s = (Ok new_id, s') -> counter s < new_id.
Proof.
  destruct s as [| |t]; [discriminate | discriminate |].
  rewrite insert_entry_eq. destruct (storable ag); [|discriminate].
  destruct (new_rowid t) as [k|] eqn:Hnew; [|discriminate].
  intros [= <- _]. apply new_rowid_fresh in Hnew. simpl. lia.
Qed.

(** C7.  From a store the program can hold, whatever calls of [init_db],
    [insert_entry], [update_entry] and [delete_entry] follow: the id of a
    row the store held at some moment is smaller than every id
    [insert_entry] returns later, whether the row is still there or has
    been deleted; and no call changes the id of a row: [update_entry]
    leaves the list of ids as it is, [delete_entry] only removes rows,
    [insert_entry] only appends, [init_db] leaves the rows. *)
Theorem ids_never_reused_nor_changed :
  (forall (s0 : Store) (earlier later : list call) (r : Row)
          (nm em : string) (ag : option Z) (nt : string) (new_id : Z) (s' : Store),
      ok_store s0 ->
      In r (stored (after_all earlier s0)) ->
      insert_entry nm em ag nt (after_all later (after_all earlier s0)) = (Ok new_id, s') ->
      id r < new_id) /\
  (forall (s : Store) (c : call),
      match c with
      | Init => stored (after c s) = stored s
      | Create _ _ _ _ => exists added, stored (after c s) = stored s ++ added
      | Update _ _ _ _ _ => map id (stored (after c s)) = map id (stored s)
      | Delete i => stored (after c s) = stored s \/
                    stored (after c s) = remaining_rows i (stored s)
      end).
Proof.
  split.
  - intros s0 earlier later r nm em ag nt new_id s' H0 Hr Hins.
    destruct (after_all_ok earlier s0 H0) as [H1 _].
    destruct (after_all_ok later _ H1) as [_ Hle].
    pose proof (stored_below_counter _ r H1 Hr).
    pose proof (insert_entry_above_counter _ _ _ _ _ _ _ Hins). lia.
  - intros s [|nm em ag nt|i nm em ag nt|i]; simpl.
    + destruct s; reflexivity.
    + destruct (insert_entry_appends s nm em ag nt) as [-> | (k & _ & ->)].
      * exists []. now rewrite app_nil_r.
      * eexists. reflexivity.
    + destruct (update_entry_stored s i nm em ag nt) as [-> | ->];
        [reflexivity | apply updated_rows_ids].
    + apply delete_entry_stored.
Qed.

(** ** The page *)

Lemma number_input_within (lo hi v : Z) (typed : option Z) (s : Store) :
  lo <= v <= hi -> number_input lo hi v typed s = (Ok (entered lo hi v typed), s).
Proof.
  intros H. unfold number_input.
  destruct (v <? lo) eqn:E1; [apply Z.ltb_lt in E1; lia|].
  destruct (hi <? v) eqn:E2; [apply Z.ltb_lt in E2; lia|]. reflexivity.
Qed.

Lemma entered_within (lo hi v : Z) (typed : option Z) :
  lo <= v <= hi -> lo <= entered lo hi v typed <= hi.
Proof.
  intros H. unfold entered. destruct typed as [x|]; [|exact H].
  destruct ((lo <=? x) && (x <=? hi)) eqn:E; [|exact H].
  apply andb_true_iff in E. rewrite !Z.leb_le in E. exact E.
Qed.

Lemma number_input_store (lo hi v : Z) (typed : option Z) (s : Store) :
  snd (number_input lo hi v typed s) = s.
Proof. unfold number_input. destruct ((v <? lo) || (hi <? v)); reflexivity. Qed.

Lemma number_input_value (lo hi v : Z) (typed : option Z) (s s' : Store) (a : Z) :
  number_input lo hi v typed s = (Ok a, s') ->
  s' = s /\ a = entered lo hi v typed /\ lo <= a <= hi.
Proof.
  unfold number_input. destruct ((v <? lo) || (hi <? v)) eqn:E; [discriminate|].
  intros [= <- <-]. apply orb_false_iff in E. destruct E as [E1 E2].
  apply Z.ltb_ge in E1, E2. repeat split; try apply entered_within; lia.
Qed.

Lemma is_empty_true (s : string) : is_empty s = true <-> s = EmptyString.
Proof. destruct s; simpl; split; congruence. Qed.

Lemma age_in_form_storable (a : Z) : 0 <= a <= 150 -> storable (Some a) = true.
Proof. intros H. apply fits_int64_iff. int64_lia. Qed.

Lemma get_entry_store (i : Z) (s : Store) : snd (get_entry i s) = s.
Proof.
  destruct s as [| |t]; [reflexivity | reflexivity |].
  rewrite get_entry_eq. destruct (fits_int64 i); reflexivity.
Qed.

Lemma get_entry_found (i : Z) (s s' : Store) (r : Row) :
  get_entry i s = (Ok (Some r), s') ->
  s' = s /\ fits_int64 i = true /\ In r (stored s) /\ id r = i.
Proof.
  destruct s as [| |t]; [discriminate | discriminate |].
  rewrite get_entry_eq. destruct (fits_int64 i); [|discriminate].
  intros [= E <-]. repeat split; simpl.
  - assert (In r (filter (has_id i) (rows t))) as H
      by (destruct (filter (has_id i) (rows t)); [discriminate | injection E as ->; now left]).
    apply filter_In in H. tauto.
  - assert (In r (filter (has_id i) (rows t))) as H
      by (destruct (filter (has_id i) (rows t)); [discriminate | injection E as ->; now left]).
    apply filter_In in H. now apply has_id_true.
Qed.

(** The add form with a missing name or email: the message, and the store
    as it was. *)
Lemma add_form_required (w : Widgets) (s : Store) :
  add_submitted w = true ->
  text_input EmptyString (add_name w) = EmptyString \/
  text_input EmptyString (add_email w) = EmptyString ->
  add_form w s = (Ok [st_error "Name and Email are required."], s).
Proof.
  intros Hsub Hempty. unfold add_form, bind.
  rewrite number_input_within by lia. rewrite Hsub.
  assert (is_empty (text_input EmptyString (add_name w))
          || is_empty (text_input EmptyString (add_email w)) = true) as ->.
  { apply orb_true_iff. rewrite !is_empty_true. exact Hempty. }
  reflexivity.
Qed.

(** The add form with a name and an email: the call of [insert_entry]. *)
Lemma add_form_submitted (w : Widgets) (s : Store) :
  add_submitted w = true ->
  text_input EmptyString (add_name w) <> EmptyString ->
  text_input EmptyString (add_email w) <> EmptyString ->
  add_form w s =
    (new_id <- insert_entry (strip (text_input EmptyString (add_name w)))
                 (strip (text_input EmptyString (add_email w)))
                 (Some (entered 0 150 18 (add_age w)))
                 (strip (text_area EmptyString (add_notes w))) ;;
     ret [st_success_added new_id]) s.
Proof.
  intros Hsub Hn He. unfold add_form. unfold bind at 1.
  rewrite number_input_within by lia. rewrite Hsub.
  destruct (is_empty (text_input EmptyString (add_name w))) eqn:E1;
    [apply is_empty_true in E1; contradiction|].
  destruct (is_empty (text_input EmptyString (add_email w))) eqn:E2;
    [apply is_empty_true in E2; contradiction|].
  reflexivity.
Qed.

Lemma update_section_idle (rs : list Row) (w : Widgets) (s : Store) :
  edit_submitted w = false -> snd (update_section rs w s) = s.
Proof.
  intros Hidle. unfold update_section. destruct rs as [|r0 rs]; [reflexivity|].
  unfold bind. pose proof (get_entry_store (selectbox (id r0) (selection_map (r0 :: rs)) (edit_choice w)) s) as Hg.
  destruct (get_entry _ s) as [[[record|]|e] s1]; simpl in Hg; subst s1; try reflexivity.
  unfold update_form, bind.
  match goal with |- context [number_input ?a ?b ?c ?d s] =>
    pose proof (number_input_store a b c d s) as Hn;
    destruct (number_input a b c d s) as [[v|e] s1] end;
    simpl in Hn; subst s1; [rewrite Hidle|]; reflexivity.
Qed.

Lemma delete_section_idle (rs : list Row) (w : Widgets) (s : Store) :
  del_clicked w = false -> snd (delete_section rs w s) = s.
Proof.
  intros Hidle. unfold delete_section. destruct rs; [reflexivity|].
  rewrite Hidle. reflexivity.
Qed.

Lemma view_all_store (s : Store) : snd (view_all s) = s.
Proof. destruct s; reflexivity. Qed.

(** ** Required fields *)

(** C8.  The add form does not keep an empty name from [insert_entry]:
    submitted with a name of one space and an email, it passes the test
    for required fields, which looks at the name as typed, strips the name
    afterwards and calls [insert_entry] with the empty string; the row is
    stored with the empty name.  With the name field left empty the same
    form shows "Name and Email are required." and the store is as it
    was. *)
Theorem blank_name_is_not_stopped_by_the_form :
  add_form (adding " " "e@x.com") (Entries empty_table) =
    (new_id <- insert_entry EmptyString "e@x.com" (Some 18) EmptyString ;;
     ret [st_success_added new_id]) (Entries empty_table) /\
  add_form (adding " " "e@x.com") (Entries empty_table) =
    (Ok [st_success_added 1],
     Entries (mkTable [{| id := 1; name := EmptyString; email := "e@x.com";
                          age := Some 18; notes := Some EmptyString |}] 1)) /\
  add_form (adding EmptyString "e@x.com") (Entries empty_table) =
    (Ok [st_error "Name and Email are required."], Entries empty_table).
Proof.
  split; [|split].
  - rewrite add_form_submitted by (try reflexivity; discriminate). reflexivity.
  - rewrite add_form_submitted by (try reflexivity; discriminate).
    unfold bind. rewrite insert_entry_eq. reflexivity.
  - apply add_form_required; [reflexivity | left; reflexivity].
Qed.

(** ** The age the forms write *)

Lemma update_form_saved (sid : Z) (record : Row) (w : Widgets) (s : Store) :
  edit_submitted w = true ->
  0 <= match age record with Some a => a | None => 18 end <= 150 ->
  update_form sid record w s =
    (ok <- update_entry sid
             (strip (text_input (name record) (edit_name w)))
             (strip (text_input (email record) (edit_email w)))
             (Some (entered 0 150 (match age record with Some a => a | None => 18 end)
                            (edit_age w)))
             (strip (text_area (match notes record with
                                | Some n => if is_empty n then EmptyString else n
                                | None => EmptyString
                                end) (edit_notes w))) ;;
     if ok : bool then ret [st_success "Record updated successfully."]
     else ret [st_error "Failed to update record. It may have been removed."]) s.
Proof.
  intros Hsub Hdef. unfold update_form. unfold bind at 1.
  rewrite number_input_within by exact Hdef. rewrite Hsub. reflexivity.
Qed.

(** C10.  In the update form of a record whose age is [NULL], saved with
    the age field untouched, [update_entry] is called with age 18, and
    [get_entry] then returns the record with age 18; a row the add form
    has written carries an age between 0 and 150, and after the update
    form has been saved every row with the selected id does: no form
    writes a [NULL] age. *)
Theorem null_age_saved_as_18 :
  (forall t sid r w,
      get_entry sid (Entries t) = (Ok (Some r), Entries t) ->
      age r = None -> edit_age w = None -> edit_submitted w = true ->
      exists s' r',
        update_form sid r w (Entries t) =
          (Ok [st_success "Record updated successfully."], s') /\
        get_entry sid s' = (Ok (Some r'), s') /\ age r' = Some 18) /\
  (forall w s new_id s',
      add_form w s = (Ok [st_success_added new_id], s') ->
      exists r a, stored s' = stored s ++ [r] /\ id r = new_id /\
                  age r = Some a /\ 0 <= a <= 150) /\
  (forall sid record w s out s',
      edit_submitted w = true ->
      update_form sid record w s = (Ok out, s') ->
      forall r', In r' (stored s') -> id r' = sid ->
                 exists a, age r' = Some a /\ 0 <= a <= 150).
Proof.
  split; [|split].
  - intros t sid r w Hget Hnull Hage Hsub.
    destruct (get_entry_found _ _ _ _ Hget) as (_ & Hfit & Hr & Hid).
    rewrite update_form_saved by (rewrite ?Hnull; auto; lia).
    rewrite Hnull, Hage. simpl entered. unfold bind.
    assert (In sid (map id (rows t))) as Hin by (rewrite <- Hid; now apply in_map).
    edestruct (update_entry_present t sid) as (Hu & _ & Hg);
      [exact Hfit | apply (age_in_form_storable 18); lia | exact Hin |].
    rewrite Hu. eexists _, _. split; [reflexivity|]. split; [exact Hg | reflexivity].
  - intros w s new_id s'. unfold add_form. unfold bind at 1.
    rewrite number_input_within by lia.
    destruct (add_submitted w); [|discriminate].
    destruct (is_empty _ || is_empty _); [discriminate|].
    destruct s as [| |t]; [discriminate | discriminate |].
    unfold bind. rewrite insert_entry_eq.
    pose proof (entered_within 0 150 18 (add_age w) ltac:(lia)) as Hin.
    rewrite (age_in_form_storable _ Hin).
    destruct (new_rowid t) as [i|]; [|discriminate].
    intros [= <- <-]. eexists _, _. simpl. repeat split; try reflexivity; lia.
  - intros sid record w s out s' Hsub. unfold update_form. unfold bind at 1.
    destruct (number_input _ _ _ _ s) as [[a|e] s1] eqn:Hn; [|discriminate].
    apply number_input_value in Hn. destruct Hn as (-> & _ & Ha).
    rewrite Hsub. destruct s as [| |t]; [discriminate | discriminate |].
    unfold bind. rewrite update_entry_eq.
    destruct (storable (Some a) && fits_int64 sid); [|discriminate].
    intros E r' Hr' Hid. exists a. split; [|exact Ha].
    assert (s' = Entries (mkTable (updated_rows sid
              (strip (text_input (name record) (edit_name w)))
              (strip (text_input (email record) (edit_email w))) (Some a)
              (strip (text_area (match notes record with
                                 | Some n => if is_empty n then EmptyString else n
                                 | None => EmptyString
                                 end) (edit_notes w))) (rows t)) (seq t))) as ->
      by (destruct (0 <? count (has_id sid) (rows t)); now injection E).
    simpl in Hr'. unfold updated_rows in Hr'. apply in_map_iff in Hr'.
    destruct Hr' as (r0 & <- & _). destruct (has_id sid r0) eqn:E0; [reflexivity|].
    apply has_id_false in E0. contradiction.
Qed.

(** ** Exceptions of the gateway in [main] *)

Lemma main_raises_from_insert (w : Widgets) (s s1 s2 : Store) (e : exn) :
  init_db s = (Ok tt, s1) ->
  add_submitted w = true ->
  text_input EmptyString (add_name w) <> EmptyString ->
  text_input EmptyString (add_email w) <> EmptyString ->
  insert_entry (strip (text_input EmptyString (add_name w)))
    (strip (text_input EmptyString (add_email w)))
    (Some (entered 0 150 18 (add_age w)))
    (strip (text_area EmptyString (add_notes w))) s1 = (Raise e, s2) ->
  main w s = (Raise e, s2).
Proof.
  intros Hinit Hsub Hn He Hins. unfold main. unfold bind at 1. rewrite Hinit.
  unfold bind at 1. rewrite add_form_submitted by assumption.
  unfold bind at 1. rewrite Hins. reflexivity.
Qed.

(** C5, as the code has it.  [main] has no handler: when the file cannot
    be opened it raises the error of [init_db], on every run; when the add
    form is submitted with a name and an email and [insert_entry] raises,
    [main] raises that error and nothing is drawn; so it does when the
    counter of the table has reached the largest INTEGER, and the store is
    left as it was. *)
Theorem storage_errors_pass_through_main :
  (forall w, main w Unopenable = (Raise unable_to_open, Unopenable)) /\
  (forall w s s1 s2 e,
      init_db s = (Ok tt, s1) ->
      add_submitted w = true ->
      text_input EmptyString (add_name w) <> EmptyString ->
      text_input EmptyString (add_email w) <> EmptyString ->
      insert_entry (strip (text_input EmptyString (add_name w)))
        (strip (text_input EmptyString (add_email w)))
        (Some (entered 0 150 18 (add_age w)))
        (strip (text_area EmptyString (add_notes w))) s1 = (Raise e, s2) ->
      main w s = (Raise e, s2)) /\
  (forall w t,
      add_submitted w = true ->
      text_input EmptyString (add_name w) <> EmptyString ->
      text_input EmptyString (add_email w) <> EmptyString ->
      MAX_ROWID <= seq t ->
      main w (Entries t) = (Raise database_full, Entries t)).
Proof.
  split; [|split].
  - reflexivity.
  - exact main_raises_from_insert.
  - intros w t Hsub Hn He Hfull.
    apply (main_raises_from_insert w (Entries t) (Entries t)); try assumption.
    + reflexivity.
    + rewrite insert_entry_eq.
      rewrite (age_in_form_storable _ (entered_within 0 150 18 (add_age w) ltac:(lia))).
      now rewrite new_rowid_full.
Qed.

(** C5, as stated, fails: on a file that cannot be opened, and on a table
    with no keys left when the add form is submitted, [main] ends with the
    gateway's exception and returns no element at all. *)
Lemma storage_error_escapes_main :
  main untouched Unopenable = (Raise unable_to_open, Unopenable) /\
  main (adding "Alice" "alice@x.com") (Entries exhausted) =
    (Raise database_full, Entries exhausted) /\
  ~ (forall w s, exists out s', main w s = (Ok out, s')).
Proof.
  split; [reflexivity|]. split; [vm_compute; reflexivity|].
  intros H. destruct (H untouched Unopenable) as (out & s' & E). discriminate E.
Qed.

(** * The properties at sample inputs *)

Ltac wf_by_computation :=
  split; simpl;
  [ repeat constructor; simpl; intuition discriminate
  | repeat constructor; lia
  | int64_lia ].

(** C1 on the table of Alice and Bob: Carol gets the id 3. *)
Lemma insert_entry_then_get_entry_sample :
  exists new_id s',
    insert_entry "Carol" "carol@x.com" (Some 41) "new" (Entries two_rows) = (Ok new_id, s') /\
    ~ In new_id (map id (rows two_rows)) /\
    get_entry new_id s' =
      (Ok (Some {| id := new_id; name := "Carol"; email := "carol@x.com";
                   age := Some 41; notes := Some "new" |}), s').
Proof.
  apply insert_entry_then_get_entry.
  - wf_by_computation.
  - simpl. int64_lia.
  - discriminate.
  - discriminate.
  - reflexivity.
Defined.

(** C2 on the table of Alice and Bob: Bob is there, no row has the id 7. *)
Lemma update_entry_then_get_entry_sample :
  (exists t',
     update_entry 2 "Bob B" "bob@x.com" (Some 31) "moved" (Entries two_rows)
       = (Ok true, Entries t') /\
     (forall r, In r (rows t') -> id r = 2 ->
                r = new_row 2 "Bob B" "bob@x.com" (Some 31) "moved") /\
     get_entry 2 (Entries t')
       = (Ok (Some (new_row 2 "Bob B" "bob@x.com" (Some 31) "moved")), Entries t')) /\
  update_entry 7 "Bob B" "bob@x.com" (Some 31) "moved" (Entries two_rows)
    = (Ok false, Entries two_rows).
Proof.
  split.
  - apply (update_entry_then_get_entry two_rows 2 "Bob B" "bob@x.com" (Some 31) "moved");
      [reflexivity | reflexivity | simpl; auto].
  - apply (update_entry_then_get_entry two_rows 7 "Bob B" "bob@x.com" (Some 31) "moved");
      [reflexivity | reflexivity | simpl; intuition lia].
Defined.

(** C3 on the table of Alice and Bob, for Alice's id. *)
Lemma delete_entry_then_get_entry_sample :
  exists (deleted : bool) (s' : Store),
    delete_entry 1 (Entries two_rows) = (Ok deleted, s') /\
    (deleted = true <-> In 1 (map id (rows two_rows))) /\
    ~ In 1 (map id (stored s')) /\
    get_entry 1 s' = (Ok None, s') /\
    delete_entry 1 s' = (Ok false, s').
Proof.
  apply (delete_entry_then_get_entry two_rows 1). reflexivity.
Defined.

(** C4 for Alice, Bob without an age, and Carol. *)
Lemma view_all_rows_by_id_descending_sample :
  fst (three_inserts_then_view_all
         "Alice" "alice@x.com" (Some 30) "vip"
         "Bob" "bob@x.com" None EmptyString
         "Carol" "carol@x.com" (Some 41) "new" NoTable) =
  Ok (1, 2, 3, [new_row 3 "Carol" "carol@x.com" (Some 41) "new";
                new_row 2 "Bob" "bob@x.com" None EmptyString;
                new_row 1 "Alice" "alice@x.com" (Some 30) "vip"]).
Proof.
  apply (proj1 (proj2 view_all_rows_by_id_descending)); reflexivity.
Defined.

(** C7: Alice is inserted into a new file and deleted; the next insert
    gets the id 2, not hers. *)
Lemma ids_never_reused_nor_changed_sample :
  id alice < 2.
Proof.
  apply (proj1 ids_never_reused_nor_changed NoTable
           [Init; Create "Alice" "alice@x.com" (Some 30) "vip"] [Delete 1]
           alice "Bob" "bob@x.com" None EmptyString 2
           (Entries (mkTable [new_row 2 "Bob" "bob@x.com" None EmptyString] 2))).
  - exact I.
  - simpl. left. reflexivity.
  - reflexivity.
Defined.

(** C10: Bob has no age; his update form, saved untouched, gives him 18. *)
Lemma null_age_saved_as_18_sample :
  (exists s' r',
     update_form 2 bob (saving 1) (Entries two_rows) =
       (Ok [st_success "Record updated successfully."], s') /\
     get_entry 2 s' = (Ok (Some r'), s') /\ age r' = Some 18) /\
  (exists r a,
     stored (Entries (mkTable [new_row 1 "Alice" "alice@x.com" (Some 18) EmptyString] 1))
       = stored (Entries empty_table) ++ [r] /\
     id r = 1 /\ age r = Some a /\ 0 <= a <= 150) /\
  (forall r', In r' (stored (snd (update_form 2 bob (saving 1) (Entries two_rows)))) ->
              id r' = 2 -> exists a, age r' = Some a /\ 0 <= a <= 150).
Proof.
  split; [|split].
  - apply (proj1 null_age_saved_as_18 two_rows 2 bob (saving 1)); reflexivity.
  - apply (proj1 (proj2 null_age_saved_as_18) (adding "Alice" "alice@x.com")
             (Entries empty_table) 1). reflexivity.
  - apply (proj2 (proj2 null_age_saved_as_18) 2 bob (saving 1) (Entries two_rows)
             [st_success "Record updated successfully."]); reflexivity.
Defined.

(** C5 as the code has it: Alice is added to a table with no keys left,
    and Bob to a table that holds Alice and has none left either. *)
Lemma storage_errors_pass_through_main_sample :
  main (adding "Alice" "alice@x.com") (Entries exhausted) =
    (Raise database_full, Entries exhausted) /\
  main (adding "Bob" "bob@x.com") (Entries (mkTable [alice] MAX_ROWID)) =
    (Raise database_full, Entries (mkTable [alice] MAX_ROWID)).
Proof.
  split.
  - apply (proj2 (proj2 storage_errors_pass_through_main));
      [reflexivity | discriminate | discriminate | simpl; lia].
  - apply (proj1 (proj2 storage_errors_pass_through_main)
             (adding "Bob" "bob@x.com") (Entries (mkTable [alice] MAX_ROWID))
             (Entries (mkTable [alice] MAX_ROWID)));
      [reflexivity | reflexivity | discriminate | discriminate | vm_compute; reflexivity].
Defined.

(** * Runs of the code *)

(** The scenario of the specification on a new file: Alice is created with
    the id 1, read, updated, read, deleted, read, and deleted again. *)
Example scenario_alice :
  fst ((init_db ;;
        i <- insert_entry "Alice" "alice@x.com" (Some 30) "vip" ;;
        r1 <- get_entry i ;;
        u <- update_entry i "Alice B" "alice@x.com" (Some 31) "vip" ;;
        r2 <- get_entry i ;;
        d1 <- delete_entry i ;;
        r3 <- get_entry i ;;
        d2 <- delete_entry i ;;
        ret (i, r1, u, r2, d1, r3, d2)) NoTable) =
  Ok (1,
      Some (mkRow 1 "Alice" "alice@x.com" (Some 30) (Some "vip")),
      true,
      Some (mkRow 1 "Alice B" "alice@x.com" (Some 31) (Some "vip")),
      true, None, false).
Proof. reflexivity. Qed.

(** The add form tests the name as typed and strips it afterwards: a name
    of one space passes the test and is stored as the empty string. *)
Remark blank_name_is_stored_empty :
  main (adding " " "e@x.com") NoTable =
    (Ok [st_success_added 1;
         st_dataframe [mkRow 1 EmptyString "e@x.com" (Some 18) (Some EmptyString)]],
     Entries (mkTable [mkRow 1 EmptyString "e@x.com" (Some 18) (Some EmptyString)] 1)).
Proof. reflexivity. Qed.

(** A run of the page on the table of Alice and Bob with nothing pressed:
    the table is drawn, Bob first, and the store is left as it was. *)
Example main_untouched :
  main untouched (Entries two_rows) = (Ok [st_dataframe [bob; alice]], Entries two_rows).
Proof. reflexivity. Qed.

(** * Further properties of the gateway *)

(** ** Lookups under the primary key *)

Lemma has_id_set_fields (j : Z) nm em ag nt (r : Row) :
  has_id j (set_fields nm em ag nt r) = has_id j r.
Proof. reflexivity. Qed.

Lemma filter_other_updated (i j : Z) nm em ag nt (rs : list Row) :
  i <> j ->
  filter (has_id j) (updated_rows i nm em ag nt rs) = filter (has_id j) rs.
Proof.
  intros Hij. unfold updated_rows. induction rs as [|r rs IH]; simpl; [reflexivity|].
  destruct (has_id i r) eqn:Ei.
  - rewrite has_id_set_fields. apply has_id_true in Ei.
    destruct (has_id j r) eqn:Ej; [apply has_id_true in Ej; congruence | exact IH].
  - destruct (has_id j r); [f_equal|]; exact IH.
Qed.

Lemma filter_other_remaining (i j : Z) (rs : list Row) :
  i <> j -> filter (has_id j) (remaining_rows i rs) = filter (has_id j) rs.
Proof.
  intros Hij. unfold remaining_rows. induction rs as [|r rs IH]; simpl; [reflexivity|].
  destruct (has_id i r) eqn:Ei; simpl.
  - apply has_id_true in Ei.
    destruct (has_id j r) eqn:Ej; [apply has_id_true in Ej; congruence | exact IH].
  - destruct (has_id j r); [f_equal|]; exact IH.
Qed.

Lemma filter_other_appended (j : Z) (rs : list Row) (r : Row) :
  id r <> j -> filter (has_id j) (rs ++ [r]) = filter (has_id j) rs.
Proof.
  intros H. rewrite filter_app. simpl. apply has_id_false in H. rewrite H.
  apply app_nil_r.
Qed.

Lemma filter_unique (rs : list Row) (r : Row) :
  NoDup (map id rs) -> In r rs -> filter (has_id (id r)) rs = [r].
Proof.
  induction rs as [|r0 rs IH]; simpl; [tauto|].
  intros Hnd Hin. apply NoDup_cons_iff in Hnd. destruct Hnd as [Hn Hnd].
  destruct Hin as [-> | Hin].
  - rewrite (proj2 (has_id_true (id r) r) eq_refl). f_equal.
    apply filter_none. exact Hn.
  - destruct (has_id (id r) r0) eqn:E.
    + apply has_id_true in E. exfalso. apply Hn. rewrite E. now apply in_map.
    + now apply IH.
Qed.

Lemma filter_split_length (f : Row -> bool) (rs : list Row) :
  (List.length (filter f rs) + List.length (filter (fun r => negb (f r)) rs)
   = List.length rs)%nat.
Proof.
  induction rs as [|r rs IH]; simpl; [reflexivity|].
  destruct (f r); simpl; lia.
Qed.

(** X1.  On a table that has no two rows with one id, for an id SQLite
    can bind, [get_entry] returns a row exactly when the row is in the
    table under that id, and [None] exactly when no row has the id. *)
Theorem get_entry_finds_the_row (t : Table) (i : Z) (r : Row) :
  NoDup (map id (rows t)) -> fits_int64 i = true ->
  (get_entry i (Entries t) = (Ok (Some r), Entries t) <-> In r (rows t) /\ id r = i) /\
  (get_entry i (Entries t) = (Ok None, Entries t) <-> ~ In i (map id (rows t))).
Proof.
  intros Hnd Hi. rewrite get_entry_eq, Hi. split; split.
  - intros E. apply (get_entry_found i (Entries t) (Entries t)).
    rewrite get_entry_eq, Hi. exact E.
  - intros [Hr <-]. rewrite filter_unique by assumption. reflexivity.
  - intros E Hin. apply in_map_iff in Hin. destruct Hin as (r0 & E0 & Hr0).
    assert (In r0 (filter (has_id i) (rows t))) as Hf
      by (apply filter_In; split; [exact Hr0 | now apply has_id_true]).
    destruct (filter (has_id i) (rows t)); [exact Hf | discriminate].
  - intros Hout. rewrite filter_none by exact Hout. reflexivity.
Qed.

(** X2.  What [get_entry] returns for an id is the same after
    [update_entry] or [delete_entry] of another id as before, on every
    store; and after [insert_entry] it is the same for every id but the one
    the insert returned. *)
Theorem get_entry_of_other_ids_unchanged
    (s : Store) (i j : Z) (nm em : string) (ag : option Z) (nt : string) :
  (i <> j ->
   fst (get_entry j (snd (update_entry i nm em ag nt s))) = fst (get_entry j s) /\
   fst (get_entry j (snd (delete_entry i s))) = fst (get_entry j s)) /\
  (fst (insert_entry nm em ag nt s) <> Ok j ->
   fst (get_entry j (snd (insert_entry nm em ag nt s))) = fst (get_entry j s)).
Proof.
  destruct s as [| |t]; [repeat split; reflexivity | repeat split; reflexivity |].
  split.
  - intros Hij. rewrite update_entry_eq, delete_entry_eq. split.
    + destruct (storable ag && fits_int64 i); [|reflexivity]. simpl.
      rewrite !get_entry_eq. destruct (fits_int64 j); [|reflexivity]. simpl.
      now rewrite filter_other_updated.
    + destruct (fits_int64 i); [|reflexivity]. simpl.
      rewrite !get_entry_eq. destruct (fits_int64 j); [|reflexivity]. simpl.
      now rewrite filter_other_remaining.
  - rewrite insert_entry_eq. destruct (storable ag); [|reflexivity].
    destruct (new_rowid t) as [k|]; [|reflexivity]. simpl. intros Hk.
    rewrite !get_entry_eq. destruct (fits_int64 j); [|reflexivity]. simpl.
    rewrite filter_other_appended; [reflexivity|]. simpl. congruence.
Qed.

(** X3.  On a table the program can hold, [update_entry] and
    [delete_entry] of an id a row has touch exactly one row: the statement
    counts one row, and [delete_entry] leaves one row fewer. *)
Theorem one_row_per_id (t : Table) (i : Z) :
  wf t -> In i (map id (rows t)) ->
  count (has_id i) (rows t) = 1 /\
  fits_int64 i = true /\
  exists t', delete_entry i (Entries t) = (Ok true, Entries t') /\
             S (List.length (rows t')) = List.length (rows t).
Proof.
  intros Hwf Hin. pose proof Hwf as [Hnd Hs Hm].
  apply in_map_iff in Hin. destruct Hin as (r & <- & Hr).
  assert (count (has_id (id r)) (rows t) = 1) as Hc
    by (unfold count; rewrite filter_unique by assumption; reflexivity).
  assert (fits_int64 (id r) = true) as Hfit.
  { rewrite Forall_forall in Hs. specialize (Hs (id r) (in_map id _ _ Hr)).
    apply fits_int64_iff. int64_lia. }
  split; [exact Hc|]. split; [exact Hfit|].
  rewrite delete_entry_eq, Hfit, Hc. eexists. split; [reflexivity|]. simpl.
  pose proof (filter_split_length (has_id (id r)) (rows t)) as Hl.
  rewrite filter_unique in Hl by assumption. simpl in Hl.
  unfold remaining_rows. lia.
Qed.

(** ** Failures *)

(** X4.  A gateway call that raises has changed nothing: on every store
    and for all arguments, when [init_db], [insert_entry], [view_all],
    [get_entry], [update_entry] or [delete_entry] ends with an exception,
    the store is the one the call started from. *)
Theorem raising_call_changes_nothing
    (s s' : Store) (e : exn) (i : Z) (nm em : string) (ag : option Z) (nt : string) :
  (init_db s = (Raise e, s') -> s' = s) /\
  (insert_entry nm em ag nt s = (Raise e, s') -> s' = s) /\
  (view_all s = (Raise e, s') -> s' = s) /\
  (get_entry i s = (Raise e, s') -> s' = s) /\
  (update_entry i nm em ag nt s = (Raise e, s') -> s' = s) /\
  (delete_entry i s = (Raise e, s') -> s' = s).
Proof.
  destruct s as [| |t].
  - repeat split; intros E; cbv in E; congruence.
  - repeat split; intros E; cbv in E; congruence.
  - rewrite insert_entry_eq, get_entry_eq, update_entry_eq, delete_entry_eq.
    repeat split.
    + discriminate.
    + destruct (storable ag); [destruct (new_rowid t)|]; congruence.
    + discriminate.
    + destruct (fits_int64 i); congruence.
    + destruct (storable ag && fits_int64 i); congruence.
    + destruct (fits_int64 i); congruence.
Qed.

(** X5.  Without the table every data function raises "no such table"
    and [init_db] is what makes them work: on a file [init_db] has just
    created the table in, [view_all] returns the empty list, [get_entry]
    returns [None], [update_entry] and [delete_entry] return [False], and
    [insert_entry] returns the id 1. *)
Theorem init_db_makes_the_gateway_work
    (i : Z) (nm em : string) (ag : option Z) (nt : string) :
  fits_int64 i = true -> storable ag = true ->
  (fst (view_all NoTable) = Raise no_such_table /\
   fst (get_entry i NoTable) = Raise no_such_table /\
   fst (insert_entry nm em ag nt NoTable) = Raise no_such_table /\
   fst (update_entry i nm em ag nt NoTable) = Raise no_such_table /\
   fst (delete_entry i NoTable) = Raise no_such_table) /\
  (fst ((init_db ;; view_all) NoTable) = Ok [] /\
   fst ((init_db ;; get_entry i) NoTable) = Ok None /\
   fst ((init_db ;; insert_entry nm em ag nt) NoTable) = Ok 1 /\
   fst ((init_db ;; update_entry i nm em ag nt) NoTable) = Ok false /\
   fst ((init_db ;; delete_entry i) NoTable) = Ok false).
Proof.
  intros Hi Hag. split; [repeat split; reflexivity|].
  unfold bind. change (init_db NoTable) with (Ok tt, Entries empty_table).
  cbv beta iota.
  rewrite get_entry_eq, insert_entry_eq, update_entry_eq, delete_entry_eq, Hi, Hag.
  repeat split; reflexivity.
Qed.

(** X6.  An integer SQLite cannot hold is refused before anything runs:
    on a table, [get_entry], [update_entry] and [delete_entry] of an id
    outside 64 bits, and [insert_entry] and [update_entry] of an age
    outside 64 bits, raise [OverflowError] and leave the table as it is. *)
Theorem integers_outside_64_bits_are_refused
    (t : Table) (i big : Z) (nm em : string) (ag : option Z) (nt : string) :
  fits_int64 big = false ->
  get_entry big (Entries t) = (Raise int_too_large, Entries t) /\
  delete_entry big (Entries t) = (Raise int_too_large, Entries t) /\
  update_entry big nm em ag nt (Entries t) = (Raise int_too_large, Entries t) /\
  update_entry i nm em (Some big) nt (Entries t) = (Raise int_too_large, Entries t) /\
  insert_entry nm em (Some big) nt (Entries t) = (Raise int_too_large, Entries t).
Proof.
  intros Hbig.
  rewrite get_entry_eq, delete_entry_eq, !update_entry_eq, insert_entry_eq.
  simpl storable. rewrite Hbig, andb_false_r. simpl. repeat split; reflexivity.
Qed.

(** X7.  On a table the program can hold, [insert_entry] succeeds exactly
    when the age can be bound and the counter is below the largest
    INTEGER; the id it returns is then the counter plus one, and the
    counter becomes that id. *)
Theorem insert_entry_succeeds_exactly_when
    (t : Table) (nm em : string) (ag : option Z) (nt : string) :
  wf t ->
  ((exists new_id s', insert_entry nm em ag nt (Entries t) = (Ok new_id, s')) <->
   storable ag = true /\ seq t < MAX_ROWID) /\
  (forall new_id s',
      insert_entry nm em ag nt (Entries t) = (Ok new_id, s') ->
      new_id = seq t + 1 /\ counter s' = new_id).
Proof.
  intros Hwf. rewrite insert_entry_eq. split; [split|].
  - intros (new_id & s' & E). destruct (storable ag); [|discriminate].
    split; [reflexivity|].
    destruct (Z_lt_le_dec (seq t) MAX_ROWID) as [Hlt | Hge]; [exact Hlt|].
    rewrite new_rowid_full in E by exact Hge. discriminate.
  - intros [-> Hroom]. rewrite new_rowid_wf by assumption. eexists _, _. reflexivity.
  - intros new_id s'. destruct (storable ag); [|discriminate].
    destruct (Z_lt_le_dec (seq t) MAX_ROWID) as [Hlt | Hge].
    + rewrite new_rowid_wf by assumption. intros [= <- <-]. split; reflexivity.
    + rewrite new_rowid_full by exact Hge. discriminate.
Qed.

(** ** Calls one after another *)

Lemma updated_rows_twice (i : Z) nm em ag nt nm' em' ag' nt' (rs : list Row) :
  updated_rows i nm' em' ag' nt' (updated_rows i nm em ag nt rs) =
  updated_rows i nm' em' ag' nt' rs.
Proof.
  unfold updated_rows. rewrite map_map. apply map_ext. intros r.
  destruct (has_id i r) eqn:E; [|now rewrite E].
  rewrite has_id_set_fields, E. reflexivity.
Qed.

Lemma count_updated_rows (i : Z) nm em ag nt (rs : list Row) :
  count (has_id i) (updated_rows i nm em ag nt rs) = count (has_id i) rs.
Proof.
  unfold count. rewrite filter_updated_rows. now rewrite length_map.
Qed.

(** X8.  The last [update_entry] of an id wins: when the second call can
    bind its age, two calls for one id, one after the other, return and
    leave what the second call alone returns and leaves, on every store.
    In particular a repeated [update_entry] changes nothing more. *)
Theorem update_entry_last_write_wins
    (s : Store) (i : Z) (nm em : string) (ag : option Z) (nt : string)
    (nm' em' : string) (ag' : option Z) (nt' : string) :
  storable ag' = true ->
  update_entry i nm' em' ag' nt' (snd (update_entry i nm em ag nt s)) =
  update_entry i nm' em' ag' nt' s.
Proof.
  intros Hag'. destruct s as [| |t]; [reflexivity | reflexivity |].
  rewrite (update_entry_eq t i nm em ag nt).
  destruct (storable ag && fits_int64 i) eqn:E; [|reflexivity]. simpl.
  rewrite !update_entry_eq, Hag'. simpl.
  destruct (fits_int64 i); [|apply andb_true_iff in E; destruct E; discriminate].
  now rewrite count_updated_rows, updated_rows_twice.
Qed.

Lemma remaining_rows_appended (i : Z) (rs : list Row) (r : Row) :
  (forall r', In r' rs -> id r' < i) -> id r = i ->
  remaining_rows i (rs ++ [r]) = rs.
Proof.
  intros Hlt Hr. unfold remaining_rows. rewrite filter_app. simpl.
  rewrite (proj2 (has_id_true i r) Hr). simpl. rewrite app_nil_r.
  apply forallb_filter_id. apply forallb_forall. intros r' Hr'.
  apply negb_true_iff, has_id_false. specialize (Hlt r' Hr'). lia.
Qed.

(** X9.  On a table the program can hold with keys left, [insert_entry]
    followed by [delete_entry] of the id it returned gives back the rows
    the table had, in their order, and the counter stays at that id: the
    table is as before but the id is spent. *)
Theorem insert_entry_then_delete_entry
    (t : Table) (nm em : string) (ag : option Z) (nt : string) :
  wf t -> seq t < MAX_ROWID -> storable ag = true ->
  exists new_id s',
    insert_entry nm em ag nt (Entries t) = (Ok new_id, s') /\
    delete_entry new_id s' = (Ok true, Entries (mkTable (rows t) new_id)) /\
    seq t < new_id.
Proof.
  intros Hwf Hroom Hag.
  pose proof (new_rowid_wf t Hwf Hroom) as Hnew.
  destruct (new_rowid_fresh t _ Hnew) as (Hfresh & Hseq & Hmax).
  rewrite insert_entry_eq, Hag, Hnew. eexists _, _. split; [reflexivity|].
  split; [|lia]. rewrite delete_entry_eq.
  assert (fits_int64 (seq t + 1) = true) as ->
    by (apply fits_int64_iff; destruct Hwf as [_ _ Hm]; int64_lia).
  simpl. rewrite remaining_rows_appended by auto.
  unfold count. rewrite filter_appended by auto. reflexivity.
Qed.

(** *** Many inserts and the listing *)

Lemma insert_desc_largest (r : Row) (rs : list Row) :
  (forall r', In r' rs -> id r' < id r) ->
  fold_right insert_desc [r] rs = r :: fold_right insert_desc [] rs.
Proof.
  induction rs as [|r0 rs IH]; intros Hlt; simpl; [reflexivity|].
  rewrite IH by (intros r' Hr'; apply Hlt; now right). simpl.
  specialize (Hlt r0 (or_introl eq_refl)).
  destruct (id r <=? id r0) eqn:E; [apply Z.leb_le in E; lia | reflexivity].
Qed.

Lemma order_by_id_desc_appended (rs : list Row) (r : Row) :
  (forall r', In r' rs -> id r' < id r) ->
  order_by_id_desc (rs ++ [r]) = r :: order_by_id_desc rs.
Proof.
  intros Hlt. unfold order_by_id_desc. rewrite fold_right_app. simpl.
  now apply insert_desc_largest.
Qed.

Lemma numbered_ids_above (k : Z) (l : list fields) (r : Row) :
  In r (numbered k l) -> k < id r.
Proof.
  revert k. induction l as [|[[[n e] a] nt] l IH]; intros k; simpl; [tauto|].
  intros [<- | Hr]; [simpl; lia | apply IH in Hr; lia].
Qed.

Lemma order_by_id_desc_numbered (rs : list Row) (k : Z) (l : list fields) :
  (forall r, In r rs -> id r <= k) ->
  order_by_id_desc (rs ++ numbered k l) = rev (numbered k l) ++ order_by_id_desc rs.
Proof.
  revert rs k. induction l as [|[[[n e] a] nt] l IH]; intros rs k Hle; simpl.
  - now rewrite app_nil_r.
  - change (rs ++ new_row (k + 1) n e a nt :: numbered (k + 1) l)
      with (rs ++ [new_row (k + 1) n e a nt] ++ numbered (k + 1) l).
    rewrite app_assoc, IH.
    + rewrite order_by_id_desc_appended.
      * now rewrite <- app_assoc.
      * intros r' Hr'. specialize (Hle r' Hr'). simpl. lia.
    + intros r Hr. apply in_app_or in Hr. destruct Hr as [Hr | [<- | []]].
      * specialize (Hle r Hr). lia.
      * simpl. lia.
Qed.

Lemma insert_each_numbered (l : list fields) (t : Table) :
  wf t -> seq t + Z.of_nat (List.length l) <= MAX_ROWID ->
  Forall (fun f => storable (age_of f) = true) l ->
  insert_each l (Entries t) =
    (Ok (map id (numbered (seq t) l)),
     Entries (mkTable (rows t ++ numbered (seq t) l)
                      (seq t + Z.of_nat (List.length l)))).
Proof.
  revert t. induction l as [|[[[n e] a] nt] l IH]; intros t Hwf Hroom Hall.
  - simpl. rewrite app_nil_r, Z.add_0_r. now destruct t.
  - apply Forall_cons_iff in Hall. destruct Hall as [Ha Hall]. unfold age_of in Ha.
    simpl in Ha. cbn [insert_each]. unfold bind at 1.
    cbn [List.length] in Hroom. rewrite Nat2Z.inj_succ in Hroom.
    assert (seq t < MAX_ROWID) as Hlt by lia.
    pose proof (new_rowid_wf t Hwf Hlt) as Hnew.
    rewrite insert_entry_eq, Ha, Hnew. unfold bind at 1.
    rewrite IH; [| now apply wf_insert | cbn [seq]; lia | exact Hall].
    cbn [rows seq numbered map List.length]. unfold ret.
    rewrite <- app_assoc, Nat2Z.inj_succ. cbn [app id new_row].
    f_equal. f_equal. f_equal. lia.
Qed.

(** X10.  On a table the program can hold with enough keys left, inserting
    records one after another returns consecutive ids, starting one above
    the counter, and [view_all] then lists the new rows first, the last
    inserted at the top, before the rows the table had; on a new table the
    listing is the insertions in reverse. *)
Theorem insert_each_then_view_all (l : list fields) (t : Table) :
  wf t -> seq t + Z.of_nat (List.length l) <= MAX_ROWID ->
  Forall (fun f => storable (age_of f) = true) l ->
  fst ((ids <- insert_each l ;; listing <- view_all ;; ret (ids, listing)) (Entries t)) =
    Ok (map (fun n => seq t + Z.of_nat n) (List.seq 1 (List.length l)),
        rev (numbered (seq t) l) ++ order_by_id_desc (rows t)).
Proof.
  intros Hwf Hroom Hall. unfold bind at 1.
  rewrite insert_each_numbered by assumption.
  unfold bind. rewrite view_all_eq. cbn [rows fst]. unfold ret. cbn [fst].
  rewrite order_by_id_desc_numbered.
  - do 2 f_equal. clear. generalize (seq t) as k.
    induction l as [|[[[n e] a] nt] l IH]; intros k; simpl; [reflexivity|].
    f_equal. rewrite IH. rewrite <- (seq_shift (List.length l) 1), map_map.
    apply map_ext. intros m. lia.
  - intros r Hr. destruct Hwf as [_ Hs _]. rewrite Forall_forall in Hs.
    specialize (Hs (id r) (in_map id _ _ Hr)). lia.
Qed.

(** ** The listing under the primary key *)

Lemma sorted_strictly (l : list Row) :
  StronglySorted by_id_desc l -> NoDup (map id l) ->
  StronglySorted by_id_strictly_desc l.
Proof.
  induction 1 as [|r l Hs IH Hall]; intros Hnd; [constructor|].
  simpl in Hnd. apply NoDup_cons_iff in Hnd. destruct Hnd as [Hn Hnd].
  constructor; [now apply IH|].
  rewrite Forall_forall in *. intros r' Hr'. specialize (Hall r' Hr').
  unfold by_id_desc, by_id_strictly_desc in *.
  assert (id r' <> id r) by (intros E; apply Hn; rewrite <- E; now apply in_map).
  lia.
Qed.

Lemma strictly_sorted_unique (l1 l2 : list Row) :
  StronglySorted by_id_strictly_desc l1 -> StronglySorted by_id_strictly_desc l2 ->
  Permutation l1 l2 -> l1 = l2.
Proof.
  intros H1. revert l2. induction H1 as [|a l1 Hs1 IH Hall1]; intros l2 H2 Hp.
  - apply Permutation_nil in Hp. now subst.
  - destruct H2 as [|b l2 Hs2 Hall2].
    + apply Permutation_sym, Permutation_nil in Hp. discriminate.
    + rewrite Forall_forall in Hall1, Hall2. unfold by_id_strictly_desc in *.
      assert (a = b) as ->.
      { assert (In a (b :: l2)) as Ha by (eapply Permutation_in; [exact Hp | now left]).
        assert (In b (a :: l1)) as Hb
          by (eapply Permutation_in; [symmetry; exact Hp | now left]).
        destruct Ha as [-> | Ha]; [reflexivity|].
        destruct Hb as [-> | Hb]; [reflexivity|].
        specialize (Hall1 b Hb). specialize (Hall2 a Ha). lia. }
      f_equal. apply IH; [exact Hs2|]. now apply Permutation_cons_inv in Hp.
Qed.

(** X11.  When no two rows share an id, [view_all] lists the rows with
    ids strictly descending, and the listing depends on the rows only, not
    on the order the table keeps them in. *)
Theorem view_all_listing_is_determined (t t' : Table) :
  NoDup (map id (rows t)) -> Permutation (rows t) (rows t') ->
  exists l,
    fst (view_all (Entries t)) = Ok l /\ fst (view_all (Entries t')) = Ok l /\
    StronglySorted by_id_strictly_desc l.
Proof.
  intros Hnd Hp. exists (order_by_id_desc (rows t)). rewrite !view_all_eq. simpl.
  assert (forall rs, NoDup (map id rs) ->
                     StronglySorted by_id_strictly_desc (order_by_id_desc rs)) as Hstrict.
  { intros rs Hrs. apply sorted_strictly; [apply order_by_id_desc_sorted|].
    eapply Permutation_NoDup; [|exact Hrs].
    apply Permutation_map. symmetry. apply order_by_id_desc_perm. }
  split; [reflexivity|]. split; [|now apply Hstrict].
  f_equal. apply strictly_sorted_unique.
  - apply Hstrict. eapply Permutation_NoDup; [|exact Hnd]. now apply Permutation_map.
  - now apply Hstrict.
  - rewrite !order_by_id_desc_perm. now symmetry.
Qed.

(** X12.  Whatever calls of [init_db], [insert_entry], [update_entry] and
    [delete_entry] are made on a new file, with whatever arguments, the
    table they leave has no two rows with one id, every id lies between 1
    and the counter, and the counter is an INTEGER. *)
Theorem calls_keep_the_primary_key (cs : list call) (t : Table) :
  after_all cs NoTable = Entries t ->
  NoDup (map id (rows t)) /\
  (forall r, In r (rows t) -> 1 <= id r <= seq t) /\
  0 <= seq t <= MAX_ROWID.
Proof.
  intros E. destruct (after_all_ok cs NoTable I) as [Hok _].
  rewrite E in Hok. destruct Hok as [Hnd Hs Hm].
  split; [exact Hnd|]. split; [|exact Hm].
  intros r Hr. rewrite Forall_forall in Hs. apply Hs. now apply in_map.
Qed.

(** * Further properties of the page *)

(** ** [str.strip()] *)

Lemma lstrip_blank (s : string) : blank s = true -> lstrip s = EmptyString.
Proof.
  induction s as [|c s IH]; [reflexivity|]. cbn [blank lstrip].
  intros H. apply andb_true_iff in H. destruct H as [-> H]. auto.
Qed.

Lemma strip_blank (s : string) : blank s = true -> strip s = EmptyString.
Proof. intros H. unfold strip. now rewrite lstrip_blank. Qed.

Lemma rstrip_cons (c : ascii) (s : string) :
  rstrip (String c s) =
  if one_space (String c (rstrip s)) then EmptyString else String c (rstrip s).
Proof. reflexivity. Qed.

Lemma rstrip_idempotent (s : string) : rstrip (rstrip s) = rstrip s.
Proof.
  induction s as [|c s IH]; [reflexivity|]. rewrite rstrip_cons.
  destruct (one_space (String c (rstrip s))) eqn:E; [reflexivity|].
  rewrite rstrip_cons, IH, E. reflexivity.
Qed.

Lemma lstrip_without_leading_space (s : string) :
  leading_space s = false -> lstrip s = s.
Proof.
  destruct s as [|c [|d [|e s3]]]; cbn [leading_space lstrip]; intros H;
    [reflexivity | | |];
    (destruct (isspace c); cbn [orb] in H; [discriminate|]); [reflexivity | |];
    (destruct (isspace2 c d); cbn [orb] in H; [discriminate|]); [reflexivity|].
  now rewrite H.
Qed.

Lemma lstrip_no_leading_space_upto (n : nat) (s : string) :
  (String.length s <= n)%nat -> leading_space (lstrip s) = false.
Proof.
  revert s. induction n as [|n IH]; intros s Hlen.
  - destruct s; [reflexivity | simpl in Hlen; lia].
  - destruct s as [|c s1]; [reflexivity|]. cbn [String.length] in Hlen.
    cbn [lstrip]. destruct (isspace c) eqn:E1; [apply IH; lia|].
    destruct s1 as [|d s2]; [cbn [leading_space]; now rewrite E1|].
    cbn [String.length] in Hlen.
    destruct (isspace2 c d) eqn:E2; [apply IH; lia|].
    destruct s2 as [|e s3]; [cbn [leading_space]; now rewrite E1, E2|].
    cbn [String.length] in Hlen.
    destruct (isspace3 c d e) eqn:E3; [apply IH; lia|].
    cbn [leading_space]. now rewrite E1, E2, E3.
Qed.

Lemma lstrip_no_leading_space (s : string) : leading_space (lstrip s) = false.
Proof. apply (lstrip_no_leading_space_upto (String.length s)). lia. Qed.

Lemma rstrip_no_leading_space (s : string) :
  leading_space s = false -> leading_space (rstrip s) = false.
Proof.
  destruct s as [|c s1]; [reflexivity|]. cbn [leading_space]. intros H.
  apply orb_false_iff in H. destruct H as [E1 H]. rewrite rstrip_cons.
  destruct (one_space (String c (rstrip s1))); [reflexivity|].
  cbn [leading_space]. rewrite E1. simpl orb.
  destruct s1 as [|d s2]; [reflexivity|].
  apply orb_false_iff in H. destruct H as [E2 H]. rewrite rstrip_cons.
  destruct (one_space (String d (rstrip s2))); [reflexivity|].
  rewrite E2. simpl orb.
  destruct s2 as [|e s3]; [reflexivity|]. rewrite rstrip_cons.
  destruct (one_space (String e (rstrip s3))); [reflexivity | exact H].
Qed.

Lemma strip_idempotent (s : string) : strip (strip s) = strip s.
Proof.
  unfold strip. rewrite (lstrip_without_leading_space (rstrip (lstrip s))).
  - apply rstrip_idempotent.
  - apply rstrip_no_leading_space, lstrip_no_leading_space.
Qed.

(** ** The sections of the page *)

Lemma add_form_idle (w : Widgets) (s : Store) :
  add_submitted w = false -> add_form w s = (Ok [], s).
Proof.
  intros H. unfold add_form, bind. rewrite number_input_within by lia.
  now rewrite H.
Qed.

Lemma delete_section_unconfirmed (rs : list Row) (w : Widgets) (s : Store) :
  del_clicked w = false \/ del_confirm w = false ->
  snd (delete_section rs w s) = s.
Proof.
  intros H. unfold delete_section. destruct rs; [reflexivity|].
  destruct (del_clicked w); [|reflexivity].
  destruct H as [H | ->]; [discriminate | reflexivity].
Qed.

(** X13.  A run of the page writes only through a pressed button: when
    the add form and the update form are not submitted and the delete
    button is not pressed, or is pressed without the confirmation box
    checked, the store after [main] is the store [init_db] left, on every
    store and whatever the widgets hold otherwise. *)
Theorem main_writes_only_on_a_pressed_button (w : Widgets) (s : Store) :
  add_submitted w = false -> edit_submitted w = false ->
  del_clicked w = false \/ del_confirm w = false ->
  snd (main w s) = snd (init_db s).
Proof.
  intros Hadd Hedit Hdel. unfold main. unfold bind at 1.
  destruct (init_db s) as [[[]|e] s1]; [|reflexivity]. simpl.
  unfold bind at 1. rewrite add_form_idle by assumption.
  unfold bind at 1. pose proof (view_all_store s1) as Hv.
  destruct (view_all s1) as [[rs|e] s2]; simpl in Hv; subst s2; [|reflexivity].
  unfold bind at 1. pose proof (update_section_idle rs w s1 Hedit) as Hu.
  destruct (update_section rs w s1) as [[u|e] s2]; simpl in Hu; subst s2; [|reflexivity].
  unfold bind at 1. pose proof (delete_section_unconfirmed rs w s1 Hdel) as Hd.
  destruct (delete_section rs w s1) as [[d|e] s2]; simpl in Hd; subst s2; reflexivity.
Qed.

Lemma add_form_inserts (t : Table) (w : Widgets) :
  wf t -> seq t < MAX_ROWID -> add_submitted w = true ->
  text_input EmptyString (add_name w) <> EmptyString ->
  text_input EmptyString (add_email w) <> EmptyString ->
  add_form w (Entries t) =
    (Ok [st_success_added (seq t + 1)],
     Entries (mkTable (rows t ++ [added_row (seq t + 1) w]) (seq t + 1))).
Proof.
  intros Hwf Hroom Hsub Hn He. rewrite add_form_submitted by assumption.
  unfold bind. rewrite insert_entry_eq.
  rewrite (age_in_form_storable _ (entered_within 0 150 18 (add_age w) ltac:(lia))).
  rewrite new_rowid_wf by assumption. reflexivity.
Qed.

(** X14.  On a table the program can hold with keys left, the add form
    submitted with a name and an email writes one row under the next id:
    name, email and notes as typed without the whitespace around them
    (stripping them again changes nothing), the age entered when it lies
    within 0 and 150, and 18 when the field was not touched or the entry
    lies outside; it shows the new id. *)
Theorem add_form_writes_the_stripped_fields (t : Table) (w : Widgets) :
  wf t -> seq t < MAX_ROWID -> add_submitted w = true ->
  text_input EmptyString (add_name w) <> EmptyString ->
  text_input EmptyString (add_email w) <> EmptyString ->
  exists r,
    add_form w (Entries t) =
      (Ok [st_success_added (seq t + 1)],
       Entries (mkTable (rows t ++ [r]) (seq t + 1))) /\
    id r = seq t + 1 /\
    name r = strip (text_input EmptyString (add_name w)) /\
    email r = strip (text_input EmptyString (add_email w)) /\
    notes r = Some (strip (text_area EmptyString (add_notes w))) /\
    strip (name r) = name r /\ strip (email r) = email r /\
    (add_age w = None -> age r = Some 18) /\
    (forall a, add_age w = Some a -> 0 <= a <= 150 -> age r = Some a) /\
    (forall a, add_age w = Some a -> a < 0 \/ 150 < a -> age r = Some 18) /\
    (exists a, age r = Some a /\ 0 <= a <= 150).
Proof.
  intros Hwf Hroom Hsub Hn He. exists (added_row (seq t + 1) w).
  split; [now apply add_form_inserts|]. unfold added_row. simpl.
  repeat split; try apply strip_idempotent.
  - now intros ->.
  - intros a -> Ha. unfold entered.
    destruct (0 <=? a) eqn:E1; [|apply Z.leb_gt in E1; lia].
    destruct (a <=? 150) eqn:E2; [reflexivity | apply Z.leb_gt in E2; lia].
  - intros a -> Ha. unfold entered.
    destruct (0 <=? a) eqn:E1; [|reflexivity].
    destruct (a <=? 150) eqn:E2; [|reflexivity].
    apply Z.leb_le in E1, E2. lia.
  - eexists. split; [reflexivity|]. apply entered_within. lia.
Qed.

(** X15.  The add form tests the text as typed and strips it afterwards:
    a name that is typed and is whitespace only passes the test, and the
    row is written with the empty name; so is an email of whitespace
    only. *)
Theorem blank_text_passes_the_add_form (t : Table) (w : Widgets) :
  wf t -> seq t < MAX_ROWID -> add_submitted w = true ->
  text_input EmptyString (add_name w) <> EmptyString ->
  text_input EmptyString (add_email w) <> EmptyString ->
  exists r,
    add_form w (Entries t) =
      (Ok [st_success_added (seq t + 1)],
       Entries (mkTable (rows t ++ [r]) (seq t + 1))) /\
    (blank (text_input EmptyString (add_name w)) = true -> name r = EmptyString) /\
    (blank (text_input EmptyString (add_email w)) = true -> email r = EmptyString).
Proof.
  intros Hwf Hroom Hsub Hn He. exists (added_row (seq t + 1) w).
  split; [now apply add_form_inserts|]. unfold added_row. simpl.
  split; apply strip_blank.
Qed.

(** ** The update form *)

Lemma wf_fits (t : Table) (r : Row) :
  wf t -> In r (rows t) -> fits_int64 (id r) = true.
Proof.
  intros [_ Hs Hm] Hr. rewrite Forall_forall in Hs.
  specialize (Hs (id r) (in_map id _ _ Hr)). apply fits_int64_iff. int64_lia.
Qed.

Lemma get_entry_unique (t : Table) (r : Row) :
  wf t -> In r (rows t) -> get_entry (id r) (Entries t) = (Ok (Some r), Entries t).
Proof.
  intros Hwf Hr. rewrite get_entry_eq, (wf_fits t r Hwf Hr).
  rewrite filter_unique; [reflexivity | apply Hwf | exact Hr].
Qed.

Lemma presentable_default (r : Row) :
  presentable r -> 0 <= match age r with Some a => a | None => 18 end <= 150.
Proof. unfold presentable. destruct (age r); [auto | lia]. Qed.

Lemma update_form_result (t : Table) (sid : Z) (r : Row) (w : Widgets) :
  get_entry sid (Entries t) = (Ok (Some r), Entries t) ->
  presentable r -> edit_submitted w = true ->
  let t' := mkTable (updated_rows sid (new_name r w) (new_email r w)
                       (Some (new_age r w)) (new_notes r w) (rows t)) (seq t) in
  update_form sid r w (Entries t) =
    (Ok [st_success "Record updated successfully."], Entries t') /\
  get_entry sid (Entries t') =
    (Ok (Some (new_row sid (new_name r w) (new_email r w)
                 (Some (new_age r w)) (new_notes r w))), Entries t').
Proof.
  intros Hget Hp Hsub t'.
  destruct (get_entry_found _ _ _ _ Hget) as (_ & Hfit & Hr & Hid).
  pose proof (presentable_default r Hp) as Hdef.
  assert (In sid (map id (rows t))) as Hin by (rewrite <- Hid; now apply in_map).
  assert (storable (Some (new_age r w)) = true) as Hst
    by (apply age_in_form_storable, entered_within, Hdef).
  destruct (update_entry_present t sid (new_name r w) (new_email r w)
              (Some (new_age r w)) (new_notes r w) Hfit Hst Hin) as (Hu & _ & Hg).
  split; [|exact Hg].
  rewrite update_form_saved by assumption. unfold bind.
  fold (new_name r w) (new_email r w) (new_age r w) (new_notes r w).
  rewrite Hu. reflexivity.
Qed.

(** X16.  The update form has no required-field test: saved with the
    name field cleared, or holding whitespace only, it calls
    [update_entry] with the empty name, shows "Record updated
    successfully." and [get_entry] then returns the record with the empty
    name; so it is for the email. *)
Theorem update_form_accepts_blank_text (t : Table) (sid : Z) (r : Row) (w : Widgets) :
  get_entry sid (Entries t) = (Ok (Some r), Entries t) ->
  presentable r -> edit_submitted w = true ->
  exists s' r',
    update_form sid r w (Entries t) =
      (Ok [st_success "Record updated successfully."], s') /\
    get_entry sid s' = (Ok (Some r'), s') /\
    (blank (text_input (name r) (edit_name w)) = true -> name r' = EmptyString) /\
    (blank (text_input (email r) (edit_email w)) = true -> email r' = EmptyString).
Proof.
  intros Hget Hp Hsub.
  destruct (update_form_result t sid r w Hget Hp Hsub) as [Hu Hg].
  eexists _, _. split; [exact Hu|]. split; [exact Hg|].
  simpl. unfold new_name, new_email. split; apply strip_blank.
Qed.

(** X17.  [NULL] notes do not survive the update form either: for a
    record whose notes are [NULL], saved with the notes field untouched,
    [get_entry] afterwards returns the record with the empty string for
    notes. *)
Theorem null_notes_saved_as_empty (t : Table) (sid : Z) (r : Row) (w : Widgets) :
  get_entry sid (Entries t) = (Ok (Some r), Entries t) ->
  presentable r -> edit_submitted w = true ->
  notes r = None -> edit_notes w = None ->
  exists s' r',
    update_form sid r w (Entries t) =
      (Ok [st_success "Record updated successfully."], s') /\
    get_entry sid s' = (Ok (Some r'), s') /\
    notes r' = Some EmptyString.
Proof.
  intros Hget Hp Hsub Hnull Hnotes.
  destruct (update_form_result t sid r w Hget Hp Hsub) as [Hu Hg].
  eexists _, _. split; [exact Hu|]. split; [exact Hg|].
  simpl. unfold new_notes. now rewrite Hnull, Hnotes.
Qed.




Lemma update_form_out_of_bounds (sid : Z) (r : Row) (a : Z) (w : Widgets) (s : Store) :
  age r = Some a -> a < 0 \/ 150 < a ->
  update_form sid r w s = (Raise StreamlitAPIException, s).
Proof.
  intros Ha Hout. unfold update_form, bind, number_input. rewrite Ha.
  assert ((a <? 0) || (150 <? a) = true) as ->.
  { apply orb_true_iff. rewrite !Z.ltb_lt. exact Hout. }
  reflexivity.
Qed.

(** ** Whole runs of the page on a table *)

Lemma main_entries (w : Widgets) (t : Table) :
  main w (Entries t) =
    (added <- add_form w ;;
     rows <- view_all ;;
     updated <- update_section rows w ;;
     deleted <- delete_section rows w ;;
     ret (added ++ records rows ++ updated ++ deleted)) (Entries t).
Proof. reflexivity. Qed.

Lemma listing_nonempty (rs : list Row) :
  rs <> [] -> exists r0 rest, order_by_id_desc rs = r0 :: rest.
Proof.
  intros H. destruct (order_by_id_desc rs) as [|r0 rest] eqn:E; [|eauto].
  exfalso. apply H. apply Permutation_nil. rewrite <- E.
  apply order_by_id_desc_perm.
Qed.

Lemma chosen_in_listing (listing : list Row) (n : nat) :
  listing <> [] -> exists r, In r listing /\ id r = chosen listing n.
Proof.
  destruct listing as [|r0 rest]; [congruence|]. intros _.
  unfold chosen, selectbox, selection_map.
  destruct (nth_in_or_default n (map id (r0 :: rest)) (id r0)) as [Hin | ->].
  - apply in_map_iff in Hin. destruct Hin as (r & E & Hr). eauto.
  - exists r0. split; [now left | reflexivity].
Qed.

Lemma chosen_found (t : Table) (n : nat) :
  wf t -> rows t <> [] ->
  exists r, In r (rows t) /\ id r = chosen (order_by_id_desc (rows t)) n /\
            get_entry (chosen (order_by_id_desc (rows t)) n) (Entries t)
              = (Ok (Some r), Entries t).
Proof.
  intros Hwf Hne. destruct (listing_nonempty _ Hne) as (r0 & rest & E).
  destruct (chosen_in_listing (order_by_id_desc (rows t)) n) as (r & Hr & Hid);
    [rewrite E; discriminate|].
  assert (In r (rows t)) as Hin
    by (eapply Permutation_in; [apply order_by_id_desc_perm | exact Hr]).
  exists r. split; [exact Hin|]. split; [exact Hid|].
  rewrite <- Hid. now apply get_entry_unique.
Qed.

Lemma update_section_chosen (listing : list Row) (w : Widgets) (s : Store) :
  listing <> [] ->
  update_section listing w s =
    (record <- get_entry (chosen listing (edit_choice w)) ;;
     match record with
     | Some record => update_form (chosen listing (edit_choice w)) record w
     | None => ret [st_warning "Selected record not found."]
     end) s.
Proof. destruct listing; [congruence | reflexivity]. Qed.

Lemma update_section_idle_draws_nothing (t : Table) (w : Widgets) :
  wf t -> Forall presentable (rows t) -> rows t <> [] -> edit_submitted w = false ->
  update_section (order_by_id_desc (rows t)) w (Entries t) = (Ok [], Entries t).
Proof.
  intros Hwf Hp Hne Hidle.
  destruct (chosen_found t (edit_choice w) Hwf Hne) as (r & Hr & _ & Hget).
  destruct (listing_nonempty _ Hne) as (r0 & rest & E).
  rewrite update_section_chosen by (rewrite E; discriminate).
  unfold bind at 1. rewrite Hget. unfold update_form, bind.
  rewrite Forall_forall in Hp.
  rewrite number_input_within by (apply presentable_default, Hp, Hr).
  now rewrite Hidle.
Qed.

Lemma delete_section_idle_draws_nothing (rs : list Row) (w : Widgets) (s : Store) :
  rs <> [] -> del_clicked w = false -> delete_section rs w s = (Ok [], s).
Proof.
  intros Hne Hidle. unfold delete_section. destruct rs; [congruence|].
  now rewrite Hidle.
Qed.

(** X19.  A stored age outside 0 to 150 stops the page: the update form
    of a record with such an age raises a [StreamlitAPIException] when its
    number field is built, before anything is saved, whatever the widgets
    hold and on every store; and a run of [main] on a table with the add
    form not submitted, in which the select box of the update section
    stands on such a record, ends with that exception: the table is as it
    was and nothing of the page is returned, the delete section
    included. *)
Theorem age_out_of_bounds_stops_the_page (t : Table) (r : Row) (a : Z) (w : Widgets) :
  age r = Some a -> a < 0 \/ 150 < a ->
  (forall sid s, update_form sid r w s = (Raise StreamlitAPIException, s)) /\
  (add_submitted w = false ->
   get_entry (chosen (order_by_id_desc (rows t)) (edit_choice w)) (Entries t)
     = (Ok (Some r), Entries t) ->
   main w (Entries t) = (Raise StreamlitAPIException, Entries t)).
Proof.
  intros Ha Hout. split.
  - intros sid s. now apply (update_form_out_of_bounds sid r a).
  - intros Hadd Hget.
    destruct (get_entry_found _ _ _ _ Hget) as (_ & _ & Hr & _). simpl in Hr.
    assert (rows t <> []) as Hne by (intros E; rewrite E in Hr; exact Hr).
    destruct (listing_nonempty _ Hne) as (r0 & rest & E).
    rewrite main_entries. unfold bind at 1. rewrite add_form_idle by exact Hadd.
    unfold bind at 1. rewrite view_all_eq. unfold bind at 1.
    rewrite update_section_chosen by (rewrite E; discriminate).
    unfold bind at 1. rewrite Hget.
    rewrite (update_form_out_of_bounds _ r a) by assumption.
    reflexivity.
Qed.

(** X20.  On a table the program can hold whose ages the update form can
    show, with keys left: the run in which the add form is submitted with
    a name and an email, and nothing else pressed, shows the new id and
    draws the table with the new row at the top, above the rows listed by
    id descending, and leaves the table with that row appended. *)
Theorem main_draws_the_added_row_first (t : Table) (w : Widgets) :
  wf t -> Forall presentable (rows t) -> seq t < MAX_ROWID ->
  add_submitted w = true ->
  text_input EmptyString (add_name w) <> EmptyString ->
  text_input EmptyString (add_email w) <> EmptyString ->
  edit_submitted w = false -> del_clicked w = false ->
  let r := {| id := seq t + 1;
              name := strip (text_input EmptyString (add_name w));
              email := strip (text_input EmptyString (add_email w));
              age := Some (entered 0 150 18 (add_age w));
              notes := Some (strip (text_area EmptyString (add_notes w))) |} in
  main w (Entries t) =
    (Ok [st_success_added (seq t + 1); st_dataframe (r :: order_by_id_desc (rows t))],
     Entries (mkTable (rows t ++ [r]) (seq t + 1))).
Proof.
  intros Hwf Hp Hroom Hsub Hn He Hedit Hdel r.
  change r with (added_row (seq t + 1) w). clear r.
  set (t' := mkTable (rows t ++ [added_row (seq t + 1) w]) (seq t + 1)).
  assert (wf t') as Hwf' by (apply wf_insert; [exact Hwf | now apply new_rowid_wf]).
  assert (Forall presentable (rows t')) as Hp'.
  { apply Forall_app. split; [exact Hp|]. constructor; [|constructor].
    unfold presentable, added_row. simpl. apply entered_within. lia. }
  assert (rows t' <> []) as Hne' by (simpl; destruct (rows t); discriminate).
  assert (order_by_id_desc (rows t') =
          added_row (seq t + 1) w :: order_by_id_desc (rows t)) as Hlist.
  { apply order_by_id_desc_appended. intros r' Hr'. destruct Hwf as [_ Hs _].
    rewrite Forall_forall in Hs. specialize (Hs (id r') (in_map id _ _ Hr')).
    simpl. lia. }
  rewrite main_entries. unfold bind at 1. rewrite add_form_inserts by assumption.
  fold t'. unfold bind at 1. rewrite view_all_eq. unfold bind at 1.
  rewrite update_section_idle_draws_nothing by assumption.
  unfold bind. rewrite delete_section_idle_draws_nothing;
    [| rewrite Hlist; discriminate | exact Hdel].
  rewrite Hlist. reflexivity.
Qed.

(** X21.  On such a table with at least one row: the run in which the
    update form is saved, and nothing else pressed, updates the record the
    select box stands on, which is a row of the table, and shows "Record
    updated successfully."; neither "Selected record not found." nor
    "Failed to update record." is shown; the table drawn in that run is
    the listing read before the save. *)
Theorem main_saves_the_chosen_record (t : Table) (w : Widgets) :
  wf t -> Forall presentable (rows t) -> rows t <> [] ->
  add_submitted w = false -> edit_submitted w = true -> del_clicked w = false ->
  exists r t',
    In r (rows t) /\ id r = chosen (order_by_id_desc (rows t)) (edit_choice w) /\
    main w (Entries t) =
      (Ok [st_dataframe (order_by_id_desc (rows t));
           st_success "Record updated successfully."],
       Entries t') /\
    t' = mkTable (updated_rows (id r) (new_name r w) (new_email r w)
                    (Some (new_age r w)) (new_notes r w) (rows t)) (seq t) /\
    get_entry (id r) (Entries t') =
      (Ok (Some {| id := id r;
                   name := strip (text_input (name r) (edit_name w));
                   email := strip (text_input (email r) (edit_email w));
                   age := Some (entered 0 150
                                  (match age r with Some a => a | None => 18 end)
                                  (edit_age w));
                   notes := Some (strip (text_area
                                           (match notes r with
                                            | Some n => if is_empty n then EmptyString else n
                                            | None => EmptyString
                                            end) (edit_notes w))) |}),
       Entries t').
Proof.
  intros Hwf Hp Hne Hadd Hsub Hdel.
  destruct (chosen_found t (edit_choice w) Hwf Hne) as (r & Hr & Hid & Hget).
  destruct (listing_nonempty _ Hne) as (r0 & rest & E).
  exists r. eexists. split; [exact Hr|]. split; [exact Hid|].
  rewrite Forall_forall in Hp.
  destruct (update_form_result t _ r w Hget (Hp r Hr) Hsub) as [Hu Hg].
  rewrite <- Hid in Hg.
  split; [|split; [reflexivity | exact Hg]].
  rewrite main_entries. unfold bind at 1. rewrite add_form_idle by exact Hadd.
  unfold bind at 1. rewrite view_all_eq. unfold bind at 1.
  rewrite update_section_chosen by (rewrite E; discriminate).
  unfold bind at 1. rewrite Hget, Hu. rewrite <- Hid.
  unfold bind. rewrite delete_section_idle_draws_nothing;
    [| rewrite E; discriminate | exact Hdel].
  rewrite E. reflexivity.
Qed.

(** X22.  On such a table with at least one row: the run in which the
    delete button is pressed with the confirmation box checked, and
    nothing else pressed, deletes the row the select box of the delete
    section stands on and shows "Record deleted successfully"; "Failed to
    delete." is not shown; the table drawn in that run still lists the
    deleted row. *)
Theorem main_deletes_the_chosen_record (t : Table) (w : Widgets) :
  wf t -> Forall presentable (rows t) -> rows t <> [] ->
  add_submitted w = false -> edit_submitted w = false ->
  del_clicked w = true -> del_confirm w = true ->
  exists r,
    In r (rows t) /\ id r = chosen (order_by_id_desc (rows t)) (del_select w) /\
    In r (order_by_id_desc (rows t)) /\
    main w (Entries t) =
      (Ok [st_dataframe (order_by_id_desc (rows t));
           st_success "Record deleted successfully"],
       Entries (mkTable (remaining_rows (id r) (rows t)) (seq t))).
Proof.
  intros Hwf Hp Hne Hadd Hedit Hclick Hconfirm.
  destruct (chosen_found t (del_select w) Hwf Hne) as (r & Hr & Hid & _).
  destruct (listing_nonempty _ Hne) as (r0 & rest & E).
  exists r. split; [exact Hr|]. split; [exact Hid|].
  split; [eapply Permutation_in; [symmetry; apply order_by_id_desc_perm | exact Hr]|].
  rewrite main_entries. unfold bind at 1. rewrite add_form_idle by exact Hadd.
  unfold bind at 1. rewrite view_all_eq. unfold bind at 1.
  rewrite update_section_idle_draws_nothing by assumption.
  unfold bind at 1.
  assert (delete_section (order_by_id_desc (rows t)) w (Entries t) =
          (Ok [st_success "Record deleted successfully"],
           Entries (mkTable (remaining_rows (id r) (rows t)) (seq t)))) as ->.
  { assert (chosen (order_by_id_desc (rows t)) (del_select w) =
            selectbox (id r0) (selection_map (order_by_id_desc (rows t))) (del_select w))
      as Hc by (unfold chosen; now rewrite E).
    unfold delete_section. rewrite E, <- E, <- Hc.
    rewrite Hclick, Hconfirm. unfold bind. cbn [negb]. cbv beta iota.
    rewrite <- Hid, delete_entry_eq, (wf_fits t r Hwf Hr).
    rewrite (proj2 (count_positive (id r) (rows t)) (in_map id _ _ Hr)). reflexivity. }
  rewrite E. reflexivity.
Qed.

(** X23.  The first run on a new file, with the add form not submitted:
    [main] creates the table and shows the three notices of an empty
    table, whatever the other widgets hold. *)
Theorem main_on_a_new_file (w : Widgets) :
  add_submitted w = false ->
  main w NoTable =
    (Ok [st_info "No records found. Add some via the form above.";
         st_info "No records to update.";
         st_info "No records to delete."],
     Entries empty_table).
Proof.
  intros Hadd. unfold main. unfold bind at 1.
  change (init_db NoTable) with (Ok tt, Entries empty_table). cbv beta iota.
  unfold bind at 1. rewrite add_form_idle by exact Hadd. reflexivity.
Qed.

(** X24.  An untouched select box stands on the newest row: for a table
    with at least one row, the id chosen in the listing of [view_all] by
    the choice 0 is the id of a row of the table, and no row has a larger
    one. *)
Theorem untouched_select_box_stands_on_the_newest_row (rs : list Row) :
  rs <> [] ->
  In (chosen (order_by_id_desc rs) 0) (map id rs) /\
  forall r, In r rs -> id r <= chosen (order_by_id_desc rs) 0.
Proof.
  intros Hne. destruct (listing_nonempty rs Hne) as (r0 & rest & E).
  pose proof (order_by_id_desc_sorted rs) as Hs.
  pose proof (order_by_id_desc_perm rs) as Hp.
  rewrite E in *. unfold chosen, selectbox, selection_map. simpl.
  split.
  - apply in_map. eapply Permutation_in; [exact Hp | now left].
  - intros r Hr.
    assert (In r (r0 :: rest)) as [-> | Hin]
      by (eapply Permutation_in; [symmetry; exact Hp | exact Hr]); [lia|].
    apply StronglySorted_inv in Hs. destruct Hs as [_ Hall].
    rewrite Forall_forall in Hall. exact (Hall r Hin).
Qed.

(** X25.  A listing that has gone stale is reported, not acted on: when
    the row a select box stands on is no longer in the table, the update
    section shows "Selected record not found." and the confirmed delete
    shows "Failed to delete. It might already be removed."; both leave the
    table as it is. *)
Theorem stale_listing_is_reported (listing : list Row) (w : Widgets) (t : Table) :
  listing <> [] ->
  (fits_int64 (chosen listing (edit_choice w)) = true ->
   ~ In (chosen listing (edit_choice w)) (map id (rows t)) ->
   update_section listing w (Entries t) =
     (Ok [st_warning "Selected record not found."], Entries t)) /\
  (fits_int64 (chosen listing (del_select w)) = true ->
   ~ In (chosen listing (del_select w)) (map id (rows t)) ->
   del_clicked w = true -> del_confirm w = true ->
   delete_section listing w (Entries t) =
     (Ok [st_error "Failed to delete. It might already be removed."], Entries t)).
Proof.
  intros Hne. split.
  - intros Hfit Hout. rewrite update_section_chosen by exact Hne.
    unfold bind. rewrite get_entry_eq, Hfit, filter_none by exact Hout. reflexivity.
  - intros Hfit Hout Hclick Hconfirm. destruct listing as [|r0 rest]; [congruence|].
    unfold delete_section. rewrite Hclick, Hconfirm. unfold bind. cbn [negb].
    cbv beta iota. change (selectbox (id r0) (selection_map (r0 :: rest)) (del_select w))
      with (chosen (r0 :: rest) (del_select w)).
    rewrite delete_entry_eq, Hfit, count_zero by exact Hout.
    unfold remaining_rows. rewrite forallb_filter_id; [now destruct t|].
    apply forallb_forall. intros r Hr. apply negb_true_iff, has_id_false.
    intros E. apply Hout. rewrite <- E. now apply in_map.
Qed.

(** X26.  Only the add form tests for empty text, and only as typed:
    [insert_entry] itself stores every name and email as they are given,
    the empty string too, on a table the program can hold with keys left;
    a submitted add form whose name or email is empty as typed shows "Name
    and Email are required." and leaves the store as it was, on every
    store; and a run of the page with that submission and no other button
    pressed leaves the store as [init_db] left it. *)
Theorem empty_text_is_refused_by_the_add_form_not_the_gateway :
  (forall t nm em ag nt,
      wf t -> seq t < MAX_ROWID -> storable ag = true ->
      exists new_id s',
        insert_entry nm em ag nt (Entries t) = (Ok new_id, s') /\
        get_entry new_id s' =
          (Ok (Some {| id := new_id; name := nm; email := em;
                       age := ag; notes := Some nt |}), s')) /\
  (forall w s,
      add_submitted w = true ->
      text_input EmptyString (add_name w) = EmptyString \/
      text_input EmptyString (add_email w) = EmptyString ->
      add_form w s = (Ok [st_error "Name and Email are required."], s)) /\
  (forall w s,
      add_submitted w = true ->
      text_input EmptyString (add_name w) = EmptyString \/
      text_input EmptyString (add_email w) = EmptyString ->
      edit_submitted w = false -> del_clicked w = false ->
      snd (main w s) = snd (init_db s)).
Proof.
  split; [|split].
  - intros t nm em ag nt Hwf Hroom Hag.
    destruct (insert_entry_row t nm em ag nt Hwf Hroom Hag) as (Hi & _ & Hg).
    eexists _, _. split; [exact Hi | exact Hg].
  - exact add_form_required.
  - intros w s Hsub Hempty Hedit Hdel. unfold main. unfold bind at 1.
    destruct (init_db s) as [[[]|e] s1]; [|reflexivity]. simpl.
    unfold bind at 1. rewrite add_form_required by assumption.
    unfold bind at 1. pose proof (view_all_store s1) as Hv.
    destruct (view_all s1) as [[rs|e] s2]; simpl in Hv; subst s2; [|reflexivity].
    unfold bind at 1. pose proof (update_section_idle rs w s1 Hedit) as Hu.
    destruct (update_section rs w s1) as [[u|e] s2]; simpl in Hu; subst s2; [|reflexivity].
    unfold bind at 1. pose proof (delete_section_idle rs w s1 Hdel) as Hd.
    destruct (delete_section rs w s1) as [[d|e] s2]; simpl in Hd; subst s2; reflexivity.
Qed.

(** * The further properties at sample inputs *)

Ltac nodup_by_computation := simpl; repeat constructor; simpl; intuition discriminate.

Ltac presentable_by_computation :=
  repeat constructor; unfold presentable; simpl; try lia; try exact I.

(** X1 for Bob in the table of Alice and Bob. *)
Lemma get_entry_finds_the_row_sample :
  (get_entry 2 (Entries two_rows) = (Ok (Some bob), Entries two_rows)
   <-> In bob (rows two_rows) /\ id bob = 2) /\
  (get_entry 2 (Entries two_rows) = (Ok None, Entries two_rows)
   <-> ~ In 2 (map id (rows two_rows))).
Proof.
  apply (get_entry_finds_the_row two_rows 2 bob);
    [nodup_by_computation | reflexivity].
Defined.

(** X2: Bob's row after calls for Alice's id, and after an insert. *)
Lemma get_entry_of_other_ids_unchanged_sample :
  (fst (get_entry 2 (snd (update_entry 1 "A" "a@x.com" None "n" (Entries two_rows))))
     = fst (get_entry 2 (Entries two_rows)) /\
   fst (get_entry 2 (snd (delete_entry 1 (Entries two_rows))))
     = fst (get_entry 2 (Entries two_rows))) /\
  fst (get_entry 2 (snd (insert_entry "A" "a@x.com" None "n" (Entries two_rows))))
    = fst (get_entry 2 (Entries two_rows)).
Proof.
  split.
  - apply (proj1 (get_entry_of_other_ids_unchanged
                    (Entries two_rows) 1 2 "A" "a@x.com" None "n")). lia.
  - apply (proj2 (get_entry_of_other_ids_unchanged
                    (Entries two_rows) 1 2 "A" "a@x.com" None "n")).
    vm_compute. discriminate.
Defined.

(** X3 for Alice's id in the table of Alice and Bob. *)
Lemma one_row_per_id_sample :
  count (has_id 1) (rows two_rows) = 1 /\
  fits_int64 1 = true /\
  exists t', delete_entry 1 (Entries two_rows) = (Ok true, Entries t') /\
             S (List.length (rows t')) = List.length (rows two_rows).
Proof.
  apply (one_row_per_id two_rows 1); [wf_by_computation | simpl; auto].
Defined.

(** X4: [get_entry] on a file without the table. *)
Lemma raising_call_changes_nothing_sample :
  get_entry 5 NoTable = (Raise no_such_table, NoTable) /\ NoTable = NoTable.
Proof.
  split; [reflexivity|].
  apply (proj1 (proj2 (proj2 (proj2
           (raising_call_changes_nothing NoTable NoTable no_such_table 5
              "A" "a@x.com" None "n"))))).
  reflexivity.
Defined.

(** X5 for the id 5 and Alice. *)
Lemma init_db_makes_the_gateway_work_sample :
  (fst (view_all NoTable) = Raise no_such_table /\
   fst (get_entry 5 NoTable) = Raise no_such_table /\
   fst (insert_entry "Alice" "alice@x.com" (Some 30) "vip" NoTable) = Raise no_such_table /\
   fst (update_entry 5 "Alice" "alice@x.com" (Some 30) "vip" NoTable) = Raise no_such_table /\
   fst (delete_entry 5 NoTable) = Raise no_such_table) /\
  (fst ((init_db ;; view_all) NoTable) = Ok [] /\
   fst ((init_db ;; get_entry 5) NoTable) = Ok None /\
   fst ((init_db ;; insert_entry "Alice" "alice@x.com" (Some 30) "vip") NoTable) = Ok 1 /\
   fst ((init_db ;; update_entry 5 "Alice" "alice@x.com" (Some 30) "vip") NoTable) = Ok false /\
   fst ((init_db ;; delete_entry 5) NoTable) = Ok false).
Proof.
  apply (init_db_makes_the_gateway_work 5 "Alice" "alice@x.com" (Some 30) "vip");
    reflexivity.
Defined.

(** X6 for the first integer past 64 bits. *)
Lemma integers_outside_64_bits_are_refused_sample :
  get_entry (MAX_ROWID + 1) (Entries two_rows) = (Raise int_too_large, Entries two_rows) /\
  delete_entry (MAX_ROWID + 1) (Entries two_rows) = (Raise int_too_large, Entries two_rows) /\
  update_entry (MAX_ROWID + 1) "A" "a@x.com" None "n" (Entries two_rows)
    = (Raise int_too_large, Entries two_rows) /\
  update_entry 1 "A" "a@x.com" (Some (MAX_ROWID + 1)) "n" (Entries two_rows)
    = (Raise int_too_large, Entries two_rows) /\
  insert_entry "A" "a@x.com" (Some (MAX_ROWID + 1)) "n" (Entries two_rows)
    = (Raise int_too_large, Entries two_rows).
Proof.
  apply (integers_outside_64_bits_are_refused two_rows 1 (MAX_ROWID + 1)
           "A" "a@x.com" None "n").
  reflexivity.
Defined.

(** X7 on the table of Alice and Bob: Carol gets the id 3. *)
Lemma insert_entry_succeeds_exactly_when_sample :
  ((exists new_id s',
      insert_entry "Carol" "carol@x.com" (Some 41) "new" (Entries two_rows) = (Ok new_id, s'))
   <-> storable (Some 41) = true /\ seq two_rows < MAX_ROWID) /\
  (forall new_id s',
      insert_entry "Carol" "carol@x.com" (Some 41) "new" (Entries two_rows) = (Ok new_id, s') ->
      new_id = seq two_rows + 1 /\ counter s' = new_id).
Proof.
  apply (insert_entry_succeeds_exactly_when two_rows "Carol" "carol@x.com" (Some 41) "new").
  wf_by_computation.
Defined.

(** X8: Bob updated twice. *)
Lemma update_entry_last_write_wins_sample :
  update_entry 2 "Bob C" "bob@x.com" (Some 32) "again"
    (snd (update_entry 2 "Bob B" "bob@x.com" (Some 31) "moved" (Entries two_rows))) =
  update_entry 2 "Bob C" "bob@x.com" (Some 32) "again" (Entries two_rows).
Proof.
  apply update_entry_last_write_wins. reflexivity.
Defined.

(** X9: Carol inserted into the table of Alice and Bob and deleted. *)
Lemma insert_entry_then_delete_entry_sample :
  exists new_id s',
    insert_entry "Carol" "carol@x.com" (Some 41) "new" (Entries two_rows) = (Ok new_id, s') /\
    delete_entry new_id s' = (Ok true, Entries (mkTable (rows two_rows) new_id)) /\
    seq two_rows < new_id.
Proof.
  apply insert_entry_then_delete_entry;
    [wf_by_computation | simpl; int64_lia | reflexivity].
Defined.

(** X10: Carol and Dan inserted into the table of Alice and Bob. *)
Lemma insert_each_then_view_all_sample :
  fst ((ids <- insert_each [("Carol", "carol@x.com", Some 41, "new");
                            ("Dan", "dan@x.com", None, EmptyString)] ;;
        listing <- view_all ;; ret (ids, listing)) (Entries two_rows)) =
    Ok ([3; 4],
        [new_row 4 "Dan" "dan@x.com" None EmptyString;
         new_row 3 "Carol" "carol@x.com" (Some 41) "new";
         bob; alice]).
Proof.
  apply (insert_each_then_view_all
           [("Carol", "carol@x.com", Some 41, "new");
            ("Dan", "dan@x.com", None, EmptyString)] two_rows);
    [wf_by_computation | simpl; int64_lia | repeat constructor].
Defined.

(** X11: the table of Alice and Bob, and the same rows swapped. *)
Lemma view_all_listing_is_determined_sample :
  exists l,
    fst (view_all (Entries two_rows)) = Ok l /\
    fst (view_all (Entries two_rows_swapped)) = Ok l /\
    StronglySorted by_id_strictly_desc l.
Proof.
  apply (view_all_listing_is_determined two_rows two_rows_swapped);
    [nodup_by_computation | apply perm_swap].
Defined.

(** X12: Alice is inserted into a new file, updated, and Bob inserted. *)
Lemma calls_keep_the_primary_key_sample :
  NoDup (map id [new_row 1 "Alice B" "alice@x.com" (Some 31) "vip";
                 new_row 2 "Bob" "bob@x.com" None EmptyString]) /\
  (forall r, In r [new_row 1 "Alice B" "alice@x.com" (Some 31) "vip";
                   new_row 2 "Bob" "bob@x.com" None EmptyString] ->
             1 <= id r <= 2) /\
  0 <= 2 <= MAX_ROWID.
Proof.
  apply (calls_keep_the_primary_key
           [Init; Create "Alice" "alice@x.com" (Some 30) "vip";
            Update 1 "Alice B" "alice@x.com" (Some 31) "vip";
            Create "Bob" "bob@x.com" None EmptyString]
           (mkTable [new_row 1 "Alice B" "alice@x.com" (Some 31) "vip";
                     new_row 2 "Bob" "bob@x.com" None EmptyString] 2)).
  reflexivity.
Defined.

(** X13: the delete button pressed without the confirmation. *)
Lemma main_writes_only_on_a_pressed_button_sample :
  snd (main (deleting 0 false) (Entries two_rows)) = snd (init_db (Entries two_rows)).
Proof.
  apply main_writes_only_on_a_pressed_button;
    [reflexivity | reflexivity | right; reflexivity].
Defined.

(** X14: Carol typed with spaces around her name. *)
Lemma add_form_writes_the_stripped_fields_sample :
  exists r,
    add_form (adding "  Carol " "carol@x.com") (Entries two_rows) =
      (Ok [st_success_added (seq two_rows + 1)],
       Entries (mkTable (rows two_rows ++ [r]) (seq two_rows + 1))) /\
    id r = seq two_rows + 1 /\
    name r = strip (text_input EmptyString (add_name (adding "  Carol " "carol@x.com"))) /\
    email r = strip (text_input EmptyString (add_email (adding "  Carol " "carol@x.com"))) /\
    notes r = Some (strip (text_area EmptyString (add_notes (adding "  Carol " "carol@x.com")))) /\
    strip (name r) = name r /\ strip (email r) = email r /\
    (add_age (adding "  Carol " "carol@x.com") = None -> age r = Some 18) /\
    (forall a, add_age (adding "  Carol " "carol@x.com") = Some a ->
               0 <= a <= 150 -> age r = Some a) /\
    (forall a, add_age (adding "  Carol " "carol@x.com") = Some a ->
               a < 0 \/ 150 < a -> age r = Some 18) /\
    (exists a, age r = Some a /\ 0 <= a <= 150).
Proof.
  apply (add_form_writes_the_stripped_fields two_rows (adding "  Carol " "carol@x.com"));
    [wf_by_computation | simpl; int64_lia | reflexivity | discriminate | discriminate].
Defined.

(** X15: a name of one space. *)
Lemma blank_text_passes_the_add_form_sample :
  exists r,
    add_form (adding " " "e@x.com") (Entries two_rows) =
      (Ok [st_success_added (seq two_rows + 1)],
       Entries (mkTable (rows two_rows ++ [r]) (seq two_rows + 1))) /\
    (blank (text_input EmptyString (add_name (adding " " "e@x.com"))) = true ->
     name r = EmptyString) /\
    (blank (text_input EmptyString (add_email (adding " " "e@x.com"))) = true ->
     email r = EmptyString).
Proof.
  apply (blank_text_passes_the_add_form two_rows (adding " " "e@x.com"));
    [wf_by_computation | simpl; int64_lia | reflexivity | discriminate | discriminate].
Defined.

(** X16: Bob's update form saved with the name cleared. *)
Lemma update_form_accepts_blank_text_sample :
  exists s' r',
    update_form 2 bob (clearing_name 0) (Entries two_rows) =
      (Ok [st_success "Record updated successfully."], s') /\
    get_entry 2 s' = (Ok (Some r'), s') /\
    (blank (text_input (name bob) (edit_name (clearing_name 0))) = true ->
     name r' = EmptyString) /\
    (blank (text_input (email bob) (edit_email (clearing_name 0))) = true ->
     email r' = EmptyString).
Proof.
  apply (update_form_accepts_blank_text two_rows 2 bob (clearing_name 0));
    [reflexivity | exact I | reflexivity].
Defined.

(** X17: Bob has no notes; his form saved untouched. *)
Lemma null_notes_saved_as_empty_sample :
  exists s' r',
    update_form 2 bob (saving 0) (Entries two_rows) =
      (Ok [st_success "Record updated successfully."], s') /\
    get_entry 2 s' = (Ok (Some r'), s') /\
    notes r' = Some EmptyString.
Proof.
  apply (null_notes_saved_as_empty two_rows 2 bob (saving 0));
    [reflexivity | exact I | reflexivity | reflexivity | reflexivity].
Defined.


(** X19: Carol's age is 200 and her row is the first of the listing. *)
Lemma age_out_of_bounds_stops_the_page_sample :
  (forall sid s, update_form sid carol untouched s = (Raise StreamlitAPIException, s)) /\
  main untouched (Entries three_rows) = (Raise StreamlitAPIException, Entries three_rows).
Proof.
  assert (200 < 0 \/ 150 < 200) as Hout by (right; lia).
  destruct (age_out_of_bounds_stops_the_page three_rows carol 200 untouched
              eq_refl Hout) as [Hform Hmain].
  split; [exact Hform|]. apply Hmain; reflexivity.
Defined.

(** X20: Carol added to the table of Alice and Bob. *)
Lemma main_draws_the_added_row_first_sample :
  main (adding "Carol" "carol@x.com") (Entries two_rows) =
    (Ok [st_success_added 3;
         st_dataframe [mkRow 3 "Carol" "carol@x.com" (Some 18) (Some EmptyString);
                       bob; alice]],
     Entries (mkTable [alice; bob;
                       mkRow 3 "Carol" "carol@x.com" (Some 18) (Some EmptyString)] 3)).
Proof.
  apply (main_draws_the_added_row_first two_rows (adding "Carol" "carol@x.com"));
    [wf_by_computation | presentable_by_computation | simpl; int64_lia
     | reflexivity | discriminate | discriminate | reflexivity | reflexivity].
Defined.

(** X21: Bob's form, the first of the listing, saved untouched. *)
Lemma main_saves_the_chosen_record_sample :
  exists r t',
    In r (rows two_rows) /\
    id r = chosen (order_by_id_desc (rows two_rows)) (edit_choice (saving 0)) /\
    main (saving 0) (Entries two_rows) =
      (Ok [st_dataframe (order_by_id_desc (rows two_rows));
           st_success "Record updated successfully."],
       Entries t') /\
    t' = mkTable (updated_rows (id r) (new_name r (saving 0))
                    (new_email r (saving 0)) (Some (new_age r (saving 0)))
                    (new_notes r (saving 0)) (rows two_rows)) (seq two_rows) /\
    get_entry (id r) (Entries t') =
      (Ok (Some {| id := id r;
                   name := strip (text_input (name r) (edit_name (saving 0)));
                   email := strip (text_input (email r) (edit_email (saving 0)));
                   age := Some (entered 0 150
                                  (match age r with Some a => a | None => 18 end)
                                  (edit_age (saving 0)));
                   notes := Some (strip (text_area
                                           (match notes r with
                                            | Some n => if is_empty n then EmptyString else n
                                            | None => EmptyString
                                            end) (edit_notes (saving 0)))) |}),
       Entries t').
Proof.
  apply (main_saves_the_chosen_record two_rows (saving 0));
    [wf_by_computation | presentable_by_computation | discriminate
     | reflexivity | reflexivity | reflexivity].
Defined.

(** X22: Bob, the first of the listing, deleted with the confirmation. *)
Lemma main_deletes_the_chosen_record_sample :
  exists r,
    In r (rows two_rows) /\
    id r = chosen (order_by_id_desc (rows two_rows)) (del_select (deleting 0 true)) /\
    In r (order_by_id_desc (rows two_rows)) /\
    main (deleting 0 true) (Entries two_rows) =
      (Ok [st_dataframe (order_by_id_desc (rows two_rows));
           st_success "Record deleted successfully"],
       Entries (mkTable (remaining_rows (id r) (rows two_rows)) (seq two_rows))).
Proof.
  apply (main_deletes_the_chosen_record two_rows (deleting 0 true));
    [wf_by_computation | presentable_by_computation | discriminate
     | reflexivity | reflexivity | reflexivity | reflexivity].
Defined.

(** X24 on the table of Alice and Bob: the choice 0 is Bob's id. *)
Lemma untouched_select_box_stands_on_the_newest_row_sample :
  In (chosen (order_by_id_desc (rows two_rows)) 0) (map id (rows two_rows)) /\
  forall r, In r (rows two_rows) -> id r <= chosen (order_by_id_desc (rows two_rows)) 0.
Proof.
  apply (untouched_select_box_stands_on_the_newest_row (rows two_rows)). discriminate.
Defined.

(** X23 with nothing touched. *)
Lemma main_on_a_new_file_sample :
  main untouched NoTable =
    (Ok [st_info "No records found. Add some via the form above.";
         st_info "No records to update.";
         st_info "No records to delete."],
     Entries empty_table).
Proof.
  apply (main_on_a_new_file untouched). reflexivity.
Defined.

(** X25: the listing still shows Carol, the table holds Alice and Bob. *)
Lemma stale_listing_is_reported_sample :
  update_section (order_by_id_desc (rows three_rows)) (saving 0) (Entries two_rows) =
    (Ok [st_warning "Selected record not found."], Entries two_rows) /\
  delete_section (order_by_id_desc (rows three_rows)) (deleting 0 true) (Entries two_rows) =
    (Ok [st_error "Failed to delete. It might already be removed."], Entries two_rows).
Proof.
  split.
  - apply (proj1 (stale_listing_is_reported (order_by_id_desc (rows three_rows))
                    (saving 0) two_rows ltac:(discriminate)));
      [reflexivity | simpl; intuition lia].
  - apply (proj2 (stale_listing_is_reported (order_by_id_desc (rows three_rows))
                    (deleting 0 true) two_rows ltac:(discriminate)));
      [reflexivity | simpl; intuition lia | reflexivity | reflexivity].
Defined.

(** X26: empty name and email go into the table of Alice and Bob; the add
    form with no name shows the message on a file that has no table. *)
Lemma empty_text_is_refused_by_the_add_form_not_the_gateway_sample :
  (exists new_id s',
     insert_entry EmptyString EmptyString None "n" (Entries two_rows) = (Ok new_id, s') /\
     get_entry new_id s' =
       (Ok (Some {| id := new_id; name := EmptyString; email := EmptyString;
                    age := None; notes := Some "n" |}), s')) /\
  add_form (adding EmptyString "e@x.com") NoTable =
    (Ok [st_error "Name and Email are required."], NoTable) /\
  snd (main (adding EmptyString "e@x.com") NoTable) = snd (init_db NoTable).
Proof.
  split; [|split].
  - apply (proj1 empty_text_is_refused_by_the_add_form_not_the_gateway);
      [wf_by_computation | simpl; int64_lia | reflexivity].
  - apply (proj1 (proj2 empty_text_is_refused_by_the_add_form_not_the_gateway));
      [reflexivity | left; reflexivity].
  - apply (proj2 (proj2 empty_text_is_refused_by_the_add_form_not_the_gateway));
      [reflexivity | left; reflexivity | reflexivity | reflexivity].
Defined.
